(** * skytemple_files.common.util: binary accessors and small helpers

    A shallow embedding of [skytemple_files/common/util.py] and the
    properties of its integer codec, its file scanner, [lcm] and the palette
    de-duplicator.

    Python integers are [Z]; a bytes-like object is a [list byte]; a raised
    exception is a [Raise] result; a function that mutates its argument
    returns the new value of that argument next to its result. *)

From Stdlib Require Import ZArith List Bool Lia ZifyNat String Ascii.
From Stdlib.Strings Require Import Byte.
Import ListNotations.
Local Open Scope Z_scope.

(** ** Results and exceptions *)

Inductive exn : Set :=
| OverflowError
| ValueError
| IndexError
| ZeroDivisionError
| BufferError.

Inductive result (A : Type) : Type :=
| Ok (a : A)
| Raise (e : exn).

Arguments Ok {A} a.
Arguments Raise {A} e.

(** ** The Python primitives the module is written with *)

Module Py.

(** [clip len i]: a slice index brought into [0 .. len], a negative one
    counting from the end first. *)
Definition clip (len i : Z) : Z :=
  if i <? 0 then Z.max 0 (i + len) else Z.min i len.

(** [l[lo:hi]]: slicing never raises, it clips. *)
Definition getslice {A : Type} (l : list A) (lo hi : Z) : list A :=
  let n := Z.of_nat (List.length l) in
  let a := clip n lo in
  let b := clip n hi in
  firstn (Z.to_nat (b - a)) (skipn (Z.to_nat a) l).

(** [l[lo:hi] = new] on a resizable sequence (list, bytearray): the clipped
    slice is replaced by [new], whatever its length; an empty or reversed
    slice inserts at [lo]. *)
Definition setslice {A : Type} (l : list A) (lo hi : Z) (new : list A) : list A :=
  let n := Z.of_nat (List.length l) in
  let a := clip n lo in
  let b := Z.max a (clip n hi) in
  firstn (Z.to_nat a) l ++ new ++ skipn (Z.to_nat b) l.

Inductive byteorder : Set := little | big.

Definition byte_value (b : byte) : Z := Z.of_N (Byte.to_N b).

Definition byte_of_Z (z : Z) : byte :=
  match Byte.of_N (Z.to_N (z mod 256)) with
  | Some b => b
  | None => x00
  end.

(** The value of a byte string read least significant byte first. *)
Fixpoint le_value (bs : list byte) : Z :=
  match bs with
  | [] => 0
  | b :: rest => byte_value b + 256 * le_value rest
  end.

(** [n] bytes of [v], least significant first (two's complement for a
    negative [v]: [mod] and [/] floor). *)
Fixpoint le_bytes (n : nat) (v : Z) : list byte :=
  match n with
  | O => []
  | S k => byte_of_Z (v mod 256) :: le_bytes k (v / 256)
  end.

Definition in_order (o : byteorder) (bs : list byte) : list byte :=
  match o with little => bs | big => rev bs end.

(** [int.from_bytes(bs, byteorder=o, signed=s)]. The empty string is 0. *)
Definition int_from_bytes (bs : list byte) (o : byteorder) (signed : bool) : Z :=
  let u := le_value (in_order o bs) in
  let bits := 8 * Z.of_nat (List.length bs) in
  if signed && (0 <? bits) && (2 ^ (bits - 1) <=? u) then u - 2 ^ bits else u.

(** [v] fits [length] bytes: [0 <= v < 256^length] unsigned,
    [-256^length <= 2v < 256^length] signed. *)
Definition fits (v length : Z) (signed : bool) : bool :=
  if signed
  then (- 256 ^ length <=? 2 * v) && (2 * v <? 256 ^ length)
  else (0 <=? v) && (v <? 256 ^ length).

(** [v.to_bytes(length, byteorder=o, signed=s)]: [ValueError] on a
    negative length, [OverflowError] when [v] does not fit. The properties
    proved of it are about lengths of one byte or more. *)
Definition int_to_bytes (v length : Z) (o : byteorder) (signed : bool)
  : result (list byte) :=
  if length <? 0 then Raise ValueError
  else if fits v length signed
       then Ok (in_order o (le_bytes (Z.to_nat length) v))
       else Raise OverflowError.

End Py.

(** ** Byte buffers

    The read functions take any bytes-like object; the write functions need a
    mutable one, a [bytearray] or a [memoryview] over one. They hold a
    sequence of bytes and differ in slice assignment. A [bytearray] on which
    no export is alive, [Bytearray], is resized. A [memoryview] accepts only
    a right-hand side of the slice's length ([ValueError] otherwise). A
    [bytearray] on which an export is alive (a [memoryview] of it is held
    somewhere), [ExportedBytearray], cannot be resized: it accepts a
    right-hand side of the slice's length and raises [BufferError] on any
    other. *)

Inductive buffer_kind : Set := Bytearray | Memoryview | ExportedBytearray.

Record buffer : Set := mkBuffer { kind : buffer_kind; contents : list byte }.

Definition buffer_len (data : buffer) : Z := Z.of_nat (List.length (contents data)).

(** [data[lo:hi]] *)
Definition buffer_slice (data : buffer) (lo hi : Z) : list byte :=
  Py.getslice (contents data) lo hi.

(** [data[lo:hi] = bs]: the outcome and the buffer afterwards. *)
Definition buffer_setslice (data : buffer) (lo hi : Z) (bs : list byte)
  : result unit * buffer :=
  match kind data with
  | Bytearray => (Ok tt, mkBuffer Bytearray (Py.setslice (contents data) lo hi bs))
  | Memoryview =>
      if Nat.eqb (List.length (buffer_slice data lo hi)) (List.length bs)
      then (Ok tt, mkBuffer Memoryview (Py.setslice (contents data) lo hi bs))
      else (Raise ValueError, data)
  | ExportedBytearray =>
      if Nat.eqb (List.length (buffer_slice data lo hi)) (List.length bs)
      then (Ok tt, mkBuffer ExportedBytearray (Py.setslice (contents data) lo hi bs))
      else (Raise BufferError, data)
  end.

(** ** The integer codec (util.py, lines 28 to 98)

    [_check_memoryview] only warns, and only when [DEBUG] is set: it has no
    part in any result. The defaults [start=0, length=1] are written out by
    the caller here. *)

Definition read_bytes (data : buffer) (start length : Z) : result (list byte) :=
  Ok (buffer_slice data start (start + length)).

Definition read_uintle (data : buffer) (start length : Z) : result Z :=
  Ok (Py.int_from_bytes (buffer_slice data start (start + length)) Py.little false).

Definition read_sintle (data : buffer) (start length : Z) : result Z :=
  Ok (Py.int_from_bytes (buffer_slice data start (start + length)) Py.little true).

Definition read_uintbe (data : buffer) (start length : Z) : result Z :=
  Ok (Py.int_from_bytes (buffer_slice data start (start + length)) Py.big false).

Definition read_sintbe (data : buffer) (start length : Z) : result Z :=
  Ok (Py.int_from_bytes (buffer_slice data start (start + length)) Py.big true).

(** The right-hand side is evaluated first: when [to_bytes] raises, the
    buffer has not been touched. *)
Definition write_int (o : Py.byteorder) (signed : bool)
    (data : buffer) (to_write start length : Z) : result unit * buffer :=
  match Py.int_to_bytes to_write length o signed with
  | Raise e => (Raise e, data)
  | Ok bs => buffer_setslice data start (start + length) bs
  end.

Definition write_uintle (data : buffer) (to_write start length : Z) :=
  write_int Py.little false data to_write start length.

Definition write_sintle (data : buffer) (to_write start length : Z) :=
  write_int Py.little true data to_write start length.

Definition write_uintbe (data : buffer) (to_write start length : Z) :=
  write_int Py.big false data to_write start length.

Definition write_sintbe (data : buffer) (to_write start length : Z) :=
  write_int Py.big true data to_write start length.

(** ** The file scanner (util.py, lines 132 to 143)

    [ndspy.fnt.Folder]: the file names of a folder and its subfolders, each
    a pair of a name and a folder, both in the folder's order. *)

#[warnings="-register-all"]
Inductive Folder : Type :=
| mkFolder (files : list string) (folders : list (string * Folder)).

Definition files (folder : Folder) : list string :=
  match folder with mkFolder fs _ => fs end.

Definition folders (folder : Folder) : list (string * Folder) :=
  match folder with mkFolder _ subs => subs end.

(** The part of [ndspy.rom.NintendoDSRom] the scanner reads. *)
Record NintendoDSRom : Type := mkRom { filenames : Folder }.

(** [x.endswith(suffix)]: [x] itself or one of its tails is [suffix]. *)
Fixpoint endswith (x suffix : string) : bool :=
  String.eqb x suffix
  || match x with
     | EmptyString => false
     | String _ x' => endswith x' suffix
     end.

Fixpoint _get_files_from_rom_with_extension__recursion
    (path : string) (folder : Folder) (ext : string) {struct folder} : list string :=
  match folder with
  | mkFolder folder_files folder_folders =>
      let files :=
        map (fun x => (path ++ x)%string)
            (filter (fun x => endswith x ("." ++ ext)%string) folder_files) in
      (fix for_subfolder (subfolders : list (string * Folder)) (files : list string)
         {struct subfolders} : list string :=
         match subfolders with
         | [] => files
         | subfolder :: rest =>
             let '(name, sub) := subfolder in
             for_subfolder rest
               (files ++ _get_files_from_rom_with_extension__recursion
                           (path ++ name ++ "/")%string sub ext)
         end) folder_folders files
  end.

Definition get_files_from_rom_with_extension (rom : NintendoDSRom) (ext : string)
  : list string :=
  _get_files_from_rom_with_extension__recursion ""%string (filenames rom) ext.

(** *** Where the files of a tree are

    [file_at folder dirs x]: the file [x] lies in the folder reached from
    [folder] by descending through the subfolders named [dirs]. *)
Inductive file_at : Folder -> list string -> string -> Prop :=
| file_here (fs : list string) (subs : list (string * Folder)) (x : string) :
    In x fs -> file_at (mkFolder fs subs) [] x
| file_below (fs : list string) (subs : list (string * Folder))
    (name : string) (sub : Folder) (dirs : list string) (x : string) :
    In (name, sub) subs -> file_at sub dirs x ->
    file_at (mkFolder fs subs) (name :: dirs) x.

(** The path of [x] below [dirs]: each folder name followed by a slash,
    then the file name. *)
Definition path_of (dirs : list string) (x : string) : string :=
  fold_right (fun d p => (d ++ "/" ++ p)%string) x dirs.

(** ** lcm (util.py, lines 152 to 154) *)

(** [a // b] on integers: floor division, [ZeroDivisionError] when [b] is 0. *)
Definition floordiv (a b : Z) : result Z :=
  if b =? 0 then Raise ZeroDivisionError else Ok (a / b).

(** [math.gcd]: the non-negative greatest common divisor, [gcd(0, 0) = 0]. *)
Definition gcd (x y : Z) : Z := Z.gcd x y.

Definition lcm (x y : Z) : result Z := floordiv (x * y) (gcd x y).

(** ** The palette de-duplicator (util.py, lines 157 to 220)

    A palette is a flat list of integers, three per color; a color is the
    list of its channels. *)

Fixpoint list_eqb (a b : list Z) : bool :=
  match a, b with
  | [], [] => true
  | x :: a', y :: b' => (x =? y) && list_eqb a' b'
  | _, _ => false
  end.

(** [color in already_collected_colors] *)
Definition color_in (color : list Z) (already_collected_colors : list (list Z)) : bool :=
  existsb (list_eqb color) already_collected_colors.

(** [l[i]] for a non-negative [i] *)
Definition getitem (l : list Z) (i : nat) : result Z :=
  match nth_error l i with
  | Some x => Ok x
  | None => Raise IndexError
  end.

Definition bind {A B : Type} (r : result A) (k : A -> result B) : result B :=
  match r with
  | Ok a => k a
  | Raise e => Raise e
  end.

Notation "x <- r ;; k" := (bind r (fun x => k))
  (at level 61, r at next level, right associativity).

(** The arm of the [if]/[elif] chain that [change_next] selects. *)
Inductive arm : Set :=
| Arm0 | Arm1 | Arm2 | Arm3 | Arm4 | Arm5 | Arm6 | Arm7 | ArmElse.

Definition arm_of (change_next : Z) : arm :=
  if change_next =? 0 then Arm0
  else if change_next =? 1 then Arm1
  else if change_next =? 2 then Arm2
  else if change_next =? 3 then Arm3
  else if change_next =? 4 then Arm4
  else if change_next =? 5 then Arm5
  else if change_next =? 6 then Arm6
  else if change_next =? 7 then Arm7
  else ArmElse.

(** The list each arm builds from the three channels it reads. *)
Definition arm_color (a : arm) (c0 c1 c2 change_amount : Z) : list Z :=
  match a with
  | Arm0 => [c0 + change_amount; c1; c2]
  | Arm1 => [c0 - change_amount; c1 + change_amount; c2]
  | Arm2 => [c0; c1 - change_amount; c2 + change_amount]
  | Arm3 => [c0; c1 + change_amount; c2]
  | Arm4 => [c0 + change_amount; c1; c2]
  | Arm5 => [c0; c1; c2 - change_amount]
  | Arm6 => [c0 - change_amount; c1 - change_amount; c2 - change_amount]
  | Arm7 => [c0; c1 - change_amount; c2 + change_amount]
  | ArmElse => [c0 - change_amount; c1 + change_amount; c2]
  end.

(** Lines 212 to 216: each channel brought into [0 .. 255]. *)
Definition clamp (x : Z) : Z :=
  if x <? 0 then 0 else if x >? 255 then 255 else x.

(** Lines 185 to 216: the next candidate. Every arm reads [color[0]],
    [color[1]] and [color[2]], in this order, so a color of fewer than three
    channels raises [IndexError] in each. *)
Definition new_color_of (color : list Z) (change_next change_amount : Z)
  : result (list Z) :=
  c0 <- getitem color 0 ;;
  c1 <- getitem color 1 ;;
  c2 <- getitem color 2 ;;
  Ok (map clamp (arm_color (arm_of change_next) c0 c1 c2 change_amount)).

(** [_mpcu__check]. The recursion of the source is unbounded: [fuel] is the
    depth allowed to it, and [None] says that it was used up before a color
    was returned. *)
Fixpoint _mpcu__check (fuel : nat) (color : list Z)
    (already_collected_colors : list (list Z)) (change_next change_amount : Z)
  : option (result (list Z)) :=
  match fuel with
  | O => None
  | S fuel' =>
      if negb (color_in color already_collected_colors) then Some (Ok color)
      else
        match new_color_of color change_next change_amount with
        | Raise e => Some (Raise e)
        | Ok new_color =>
            let new_change_next := (change_next + 1) mod 8 in
            let change_amount :=
              if new_change_next =? 0 then change_amount + 1 else change_amount in
            _mpcu__check fuel' new_color already_collected_colors
              new_change_next change_amount
        end
  end.


(** [range(0, n, 3)] *)
Definition range3 (n : nat) : list Z :=
  map (fun k => 3 * Z.of_nat k) (seq 0 ((n + 2) / 3)).

(** The inner loop, lines 170 to 174, over the indices still to visit: the
    colors collected so far and [out_p] are threaded through. *)
Fixpoint for_color_idx (fuel : nat) (palette : list Z) (idxs : list Z)
    (already_collected_colors : list (list Z)) (out_p : list Z)
  : option (result (list (list Z) * list Z)) :=
  match idxs with
  | [] => Some (Ok (already_collected_colors, out_p))
  | color_idx :: rest =>
      let color := Py.getslice palette color_idx (color_idx + 3) in
      match _mpcu__check fuel color already_collected_colors 0 1 with
      | None => None
      | Some (Raise e) => Some (Raise e)
      | Some (Ok new_color) =>
          for_color_idx fuel palette rest
            (already_collected_colors ++ [new_color]) (out_p ++ new_color)
      end
  end.

(** The outer loop, lines 167 to 174. *)
Fixpoint for_palette (fuel : nat) (inp : list (list Z))
    (already_collected_colors : list (list Z)) (out : list (list Z))
  : option (result (list (list Z))) :=
  match inp with
  | [] => Some (Ok out)
  | palette :: rest =>
      match for_color_idx fuel palette (range3 (List.length palette))
              already_collected_colors [] with
      | None => None
      | Some (Raise e) => Some (Raise e)
      | Some (Ok (already, out_p)) => for_palette fuel rest already (out ++ [out_p])
      end
  end.

Definition make_palette_colors_unique (fuel : nat) (inp : list (list Z))
  : option (result (list (list Z))) :=
  for_palette fuel inp [] [].

(** *** The search seen as a walk

    A step of the cycle is a direction, the sign given to [change_amount] on
    each of R, G and B; the walk takes its [i]-th step in direction
    [i mod 8] with amount [1 + i / 8]. *)

Definition direction : Set := (Z * Z * Z)%type.

Definition rgb : Set := (Z * Z * Z)%type.

Definition color_of (c : rgb) : list Z :=
  let '(r, g, b) := c in [r; g; b].

(** The eight directions of the arms [change_next = 0 .. 7] of the source. *)
Definition cycle : list direction :=
  [ (1, 0, 0); (-1, 1, 0); (0, -1, 1); (0, 1, 0);
    (1, 0, 0); (0, 0, -1); (-1, -1, -1); (0, -1, 1) ].

(** The eight directions as the specification lists them: R+, G+ and R-,
    B+ and G-, G+, R+, B-, all three -, G+ and B+. *)
Definition claimed_cycle : list direction :=
  [ (1, 0, 0); (-1, 1, 0); (0, -1, 1); (0, 1, 0);
    (1, 0, 0); (0, 0, -1); (-1, -1, -1); (0, 1, 1) ].

Definition move (d : direction) (amount : Z) (c : rgb) : rgb :=
  let '(dr, dg, db) := d in
  let '(r, g, b) := c in
  (clamp (r + dr * amount), clamp (g + dg * amount), clamp (b + db * amount)).

(** The [i]-th candidate of the walk from [c]: each is a move from the one
    before it. *)
Fixpoint candidate (cyc : list direction) (c : rgb) (i : nat) : rgb :=
  match i with
  | O => c
  | S j => move (nth (j mod 8) cyc (0, 0, 0)) (1 + Z.of_nat (j / 8)) (candidate cyc c j)
  end.

(** The first candidate from the [i]-th on that is not in [seen], among
    [fuel] of them. *)
Fixpoint first_fresh (cyc : list direction) (seen : list (list Z)) (c : rgb)
    (i fuel : nat) : option (list Z) :=
  match fuel with
  | O => None
  | S fuel' =>
      if color_in (color_of (candidate cyc c i)) seen
      then first_fresh cyc seen c (S i) fuel'
      else Some (color_of (candidate cyc c i))
  end.

(** The colors of a palette, as the inner loop cuts them. *)
Definition colors_of (palette : list Z) : list (list Z) :=
  map (fun color_idx => Py.getslice palette color_idx (color_idx + 3))
      (range3 (List.length palette)).

(** *** A palette on which the search has no end

    The colors [_mpcu__check] goes through from black when each of them is
    taken already: the first [n] of them. *)
Fixpoint trajectory (n : nat) (color : list Z) (change_next change_amount : Z)
  : list (list Z) :=
  match n with
  | O => []
  | S k =>
      color ::
      match new_color_of color change_next change_amount with
      | Raise _ => []
      | Ok new_color =>
          let new_change_next := (change_next + 1) mod 8 in
          trajectory k new_color new_change_next
            (if new_change_next =? 0 then change_amount + 1 else change_amount)
      end
  end.

Definition stuck_colors : list (list Z) :=
  nodup (list_eq_dec Z.eq_dec) (trajectory 2049 [0; 0; 0] 0 1).

(** Each of these colors once, then black a second time. *)
Definition stuck_palette : list Z := List.concat stuck_colors ++ [0; 0; 0].

(** *** Views of the loops used in the proofs *)

(** A palette cut in threes from the left; what is left over, if anything,
    comes last. *)
Fixpoint chunks3 (palette : list Z) : list (list Z) :=
  match palette with
  | a :: b :: c :: rest => [a; b; c] :: chunks3 rest
  | [] => []
  | short => [short]
  end.

(** A list of colors that is such a cut: three channels each, the last one
    may have one or two. *)
Fixpoint chunked (colors : list (list Z)) : Prop :=
  match colors with
  | [] => True
  | color :: rest =>
      match rest with
      | [] => (1 <= List.length color <= 3)%nat
      | _ => List.length color = 3%nat /\ chunked rest
      end
  end.

(** The inner loop over the colors themselves. *)
Fixpoint collect (fuel : nat) (colors : list (list Z))
    (already_collected_colors : list (list Z)) (out_p : list Z)
  : option (result (list (list Z) * list Z)) :=
  match colors with
  | [] => Some (Ok (already_collected_colors, out_p))
  | color :: rest =>
      match _mpcu__check fuel color already_collected_colors 0 1 with
      | None => None
      | Some (Raise e) => Some (Raise e)
      | Some (Ok new_color) =>
          collect fuel rest (already_collected_colors ++ [new_color]) (out_p ++ new_color)
      end
  end.

(** The arguments of the call that [_mpcu__check] reaches after [n] calls
    that all found their color taken. *)
Fixpoint skip (n : nat) (color : list Z) (already_collected_colors : list (list Z))
    (change_next change_amount : Z) : option (list Z * Z * Z) :=
  match n with
  | O => Some (color, change_next, change_amount)
  | S k =>
      if color_in color already_collected_colors
      then match new_color_of color change_next change_amount with
           | Raise _ => None
           | Ok new_color =>
               let new_change_next := (change_next + 1) mod 8 in
               skip k new_color already_collected_colors new_change_next
                 (if new_change_next =? 0 then change_amount + 1 else change_amount)
           end
      else None
  end.

(** Where the walk is before its step [k] once [change_amount] is 255 or
    more: every move then ends on a face of the color cube. *)
Definition corner (k : nat) : list Z :=
  match k with
  | 0%nat => [0; 0; 255]
  | 1%nat => [255; 0; 255]
  | 2%nat => [0; 255; 255]
  | 3%nat => [0; 0; 255]
  | 4%nat => [0; 255; 255]
  | 5%nat => [255; 255; 255]
  | 6%nat => [255; 255; 0]
  | _ => [0; 0; 0]
  end.

(** ** The iterators (util.py, lines 101 to 129)

    A generator is modelled by what it yields when it is run to its end:
    the values yielded and, when the run ends by an exception, that
    exception. *)

Record generated (A : Type) : Type :=
  mkGenerated { yielded : list A; raised : option exn }.

Arguments mkGenerated {A} yielded raised.
Arguments yielded {A} g.
Arguments raised {A} g.

(** The length of [range(start, stop, step)] for a step other than 0. *)
Definition range_len (start stop step : Z) : Z :=
  if 0 <? step
  then (if start <? stop then (stop - start - 1) / step + 1 else 0)
  else (if stop <? start then (start - stop - 1) / (- step) + 1 else 0).

(** [range(start, stop, step)]: [ValueError] for a step of 0. *)
Definition range (start stop step : Z) : result (list Z) :=
  if step =? 0 then Raise ValueError
  else Ok (map (fun k => start + Z.of_nat k * step)
               (seq 0 (Z.to_nat (range_len start stop step)))).

(** The [while] loop of [iter_bits], lines 104 to 109; [fuel] bounds the
    number of its turns. *)
Fixpoint iter_bits_loop (fuel : nat) (number bit : Z) : list Z :=
  match fuel with
  | O => []
  | S fuel' =>
      if bit >? 0
      then (if Z.land number bit =? 0 then 0 else 1)
             :: iter_bits_loop fuel' number (Z.shiftr bit 1)
      else []
  end.

(** [iter_bits]: the loop leaves by its own test at the ninth turn. *)
Definition iter_bits (number : Z) : list Z := iter_bits_loop 9 number 128.

(** [iter_bytes]; [end_] is [None] for the default [end=None]. *)
Definition iter_bytes (data : buffer) (slice_size start : Z) (end_ : option Z)
  : generated (list byte) :=
  let end_ := match end_ with None => buffer_len data | Some e => e end in
  match range start end_ slice_size with
  | Raise e => mkGenerated [] (Some e)
  | Ok idxs =>
      mkGenerated (map (fun i => buffer_slice data i (i + slice_size)) idxs) None
  end.

(** The body of the [for] loop of [iter_bytes_4bit_le] over the slices that
    [iter_bytes] yields: [byte[0]] raises [IndexError] on an empty slice. *)
Fixpoint for_byte (slices : list (list byte)) : generated Z :=
  match slices with
  | [] => mkGenerated [] None
  | byte :: rest =>
      match nth_error byte 0 with
      | None => mkGenerated [] (Some IndexError)
      | Some byte_0 =>
          let upper := Z.shiftr (Py.byte_value byte_0) 4 in
          let lower := Z.land (Py.byte_value byte_0) 15 in
          let later := for_byte rest in
          mkGenerated (lower :: upper :: yielded later) (raised later)
      end
  end.

Definition iter_bytes_4bit_le (data : buffer) (start : Z) (end_ : option Z)
  : generated Z :=
  let slices := iter_bytes data 1 start end_ in
  match raised slices with
  | Some e => mkGenerated [] (Some e)
  | None => for_byte (yielded slices)
  end.

(** *** Names for the four reads and the four writes *)

Definition read_int (o : Py.byteorder) (signed : bool)
  : buffer -> Z -> Z -> result Z :=
  match o, signed with
  | Py.little, false => read_uintle
  | Py.little, true => read_sintle
  | Py.big, false => read_uintbe
  | Py.big, true => read_sintbe
  end.

Definition write_named (o : Py.byteorder) (signed : bool)
  : buffer -> Z -> Z -> Z -> result unit * buffer :=
  match o, signed with
  | Py.little, false => write_uintle
  | Py.little, true => write_sintle
  | Py.big, false => write_uintbe
  | Py.big, true => write_sintbe
  end.

(** [v] has a representation in [length] bytes. *)
Definition representable (signed : bool) (length v : Z) : Prop :=
  if signed
  then - 2 ^ (8 * length - 1) <= v < 2 ^ (8 * length - 1)
  else 0 <= v < 256 ^ length.

(** The bytes that two nibbles each, low one first, stand for. *)
Fixpoint from_nibbles (nibbles : list Z) : list Z :=
  match nibbles with
  | lower :: upper :: rest => (lower + 16 * upper) :: from_nibbles rest
  | _ => []
  end.

(** All the colors of a collection of palettes, in order. *)
Definition all_colors (inp : list (list Z)) : list (list Z) :=
  List.concat (map colors_of inp).

(** A color as returned next to the color given: of the same number of
    channels, and the same color or one with every channel in 0 .. 255. *)
Definition kept_or_clamped (color new_color : list Z) : Prop :=
  List.length color = List.length new_color
  /\ (new_color = color \/ Forall (fun x => 0 <= x <= 255) new_color).

(** [news] answers [colors] place by place: each new color is not among the
    colors collected before it, those of [seen] and the new colors before
    it, and it is the color given when that one is not among them. *)
Definition answers (seen colors news : list (list Z)) : Prop :=
  List.length news = List.length colors
  /\ forall i c n,
       nth_error colors i = Some c -> nth_error news i = Some n ->
       ~ In n (seen ++ firstn i news)
       /\ (~ In c (seen ++ firstn i news) -> n = c).

(** * Properties *)

(** ** Slices *)

Section Slices.

Context {A : Type}.
Implicit Types l new : list A.

Lemma clip_nonneg (len i : Z) : 0 <= len -> 0 <= i -> Py.clip len i = Z.min i len.
Proof.
  intros Hlen Hi. unfold Py.clip.
  destruct (Z.ltb_spec i 0); [lia | reflexivity].
Qed.

Lemma clip_range (len i : Z) : 0 <= len -> 0 <= Py.clip len i <= len.
Proof.
  intros Hlen. unfold Py.clip. destruct (Z.ltb_spec i 0); lia.
Qed.

(** A slice from a non-negative [lo] is what [skipn] and [firstn] cut. *)
Lemma getslice_nonneg l (lo hi : Z) :
  0 <= lo <= hi ->
  Py.getslice l lo hi = firstn (Z.to_nat (hi - lo)) (skipn (Z.to_nat lo) l).
Proof.
  intros H. unfold Py.getslice.
  rewrite !clip_nonneg by lia.
  destruct (Z.le_gt_cases (Z.of_nat (List.length l)) lo) as [Hout | Hin].
  - rewrite Z.min_r by lia. rewrite !skipn_all2 by lia. now rewrite !firstn_nil.
  - rewrite (Z.min_l lo) by lia.
    destruct (Z.le_gt_cases hi (Z.of_nat (List.length l))).
    + now rewrite Z.min_l by lia.
    + rewrite Z.min_r by lia.
      rewrite !firstn_all2; [reflexivity | |]; rewrite length_skipn; lia.
Qed.

(** A slice that reaches past the end is the rest of the list. *)
Lemma getslice_past_end l (lo hi : Z) :
  0 <= lo -> Z.of_nat (List.length l) <= hi -> lo <= hi ->
  Py.getslice l lo hi = skipn (Z.to_nat lo) l.
Proof.
  intros Hlo Hhi Hle. rewrite getslice_nonneg by lia.
  apply firstn_all2. rewrite length_skipn. lia.
Qed.

Lemma setslice_nonneg l (lo hi : Z) new :
  0 <= lo <= hi ->
  Py.setslice l lo hi new
  = firstn (Z.to_nat lo) l ++ new ++ skipn (Z.to_nat hi) l.
Proof.
  intros H. unfold Py.setslice.
  rewrite !clip_nonneg by lia.
  set (n := Z.of_nat (List.length l)).
  assert (Hn : n = Z.of_nat (List.length l)) by reflexivity.
  f_equal; [| f_equal].
  - destruct (Z.le_gt_cases n lo).
    + rewrite Z.min_r by lia. rewrite !firstn_all2 by lia. reflexivity.
    + now rewrite Z.min_l by lia.
  - destruct (Z.le_gt_cases n hi).
    + rewrite !skipn_all2 by lia. reflexivity.
    + f_equal. lia.
Qed.

(** What was stored in a slice that starts inside the list, or at its end,
    is read back from it. *)
Lemma getslice_setslice l (lo : Z) new :
  0 <= lo <= Z.of_nat (List.length l) ->
  let hi := lo + Z.of_nat (List.length new) in
  Py.getslice (Py.setslice l lo hi new) lo hi = new.
Proof.
  intros H hi. subst hi.
  rewrite setslice_nonneg by lia. rewrite getslice_nonneg by lia.
  rewrite skipn_app, skipn_all2 by (rewrite length_firstn; lia).
  rewrite length_firstn, Nat.min_l by lia.
  replace (Z.to_nat lo - Z.to_nat lo)%nat with 0%nat by lia.
  cbn [skipn app].
  replace (Z.to_nat (lo + Z.of_nat (List.length new) - lo)) with (List.length new) by lia.
  rewrite firstn_app, Nat.sub_diag, firstn_all. cbn [firstn]. now rewrite app_nil_r.
Qed.

Lemma length_getslice_le l (lo hi : Z) :
  0 <= lo <= hi ->
  Z.of_nat (List.length (Py.getslice l lo hi))
  = Z.max 0 (Z.min hi (Z.of_nat (List.length l)) - lo).
Proof.
  intros H. rewrite getslice_nonneg by lia.
  rewrite length_firstn, length_skipn. lia.
Qed.

End Slices.

(** ** The integer codec *)

Section Codec.

Import Py.

Lemma byte_value_range (b : byte) : 0 <= byte_value b < 256.
Proof.
  unfold byte_value. pose proof (Byte.to_N_bounded b). lia.
Qed.

Lemma byte_value_of_Z (z : Z) : byte_value (byte_of_Z z) = z mod 256.
Proof.
  unfold byte_value, byte_of_Z.
  pose proof (Z.mod_pos_bound z 256 ltac:(lia)) as Hz.
  destruct (Byte.of_N (Z.to_N (z mod 256))) as [b |] eqn:E.
  - apply Byte.to_of_N in E. rewrite E. lia.
  - apply Byte.of_N_None_iff in E. lia.
Qed.

Lemma length_le_bytes (n : nat) (v : Z) : List.length (le_bytes n v) = n.
Proof.
  revert v. induction n as [| n IH]; intros v; cbn; [reflexivity | now rewrite IH].
Qed.

Lemma length_in_order (o : byteorder) (bs : list byte) :
  List.length (in_order o bs) = List.length bs.
Proof. destruct o; cbn; [reflexivity | apply length_rev]. Qed.

Lemma in_order_involutive (o : byteorder) (bs : list byte) :
  in_order o (in_order o bs) = bs.
Proof. destruct o; cbn; [reflexivity | apply rev_involutive]. Qed.

(** The bytes of [v] read back: [v] modulo [256^n]. *)
Lemma le_value_le_bytes (n : nat) (v : Z) :
  le_value (le_bytes n v) = v mod 256 ^ Z.of_nat n.
Proof.
  revert v. induction n as [| n IH]; intros v.
  - cbn. now rewrite Z.mod_1_r.
  - cbn [le_bytes le_value]. rewrite byte_value_of_Z, IH.
    rewrite Z.mod_mod by lia.
    rewrite Nat2Z.inj_succ, Z.pow_succ_r by lia.
    rewrite Z.rem_mul_r by lia. reflexivity.
Qed.

Lemma le_value_range (bs : list byte) :
  0 <= le_value bs < 256 ^ Z.of_nat (List.length bs).
Proof.
  induction bs as [| b bs IH].
  - cbn. lia.
  - cbn [le_value List.length]. rewrite Nat2Z.inj_succ, Z.pow_succ_r by lia.
    pose proof (byte_value_range b). lia.
Qed.

Lemma pow256 (n : Z) : 0 <= n -> 256 ^ n = 2 ^ (8 * n).
Proof.
  intros Hn. change 256 with (2 ^ 8). now rewrite <- Z.pow_mul_r by lia.
Qed.

Lemma pow2_half (n : Z) : 1 <= n -> 256 ^ n = 2 * 2 ^ (8 * n - 1).
Proof.
  intros Hn. rewrite pow256 by lia.
  replace (8 * n) with (Z.succ (8 * n - 1)) at 1 by lia.
  now rewrite Z.pow_succ_r by lia.
Qed.

(** [fits] is the representable range. *)
Lemma fits_unsigned (v length : Z) :
  fits v length false = true <-> 0 <= v < 256 ^ length.
Proof. unfold fits. lia. Qed.

Lemma fits_signed (v length : Z) :
  1 <= length ->
  fits v length true = true <-> - 2 ^ (8 * length - 1) <= v < 2 ^ (8 * length - 1).
Proof. intros H. unfold fits. rewrite (pow2_half length H). lia. Qed.

(** Decoding what [to_bytes] encoded. *)
Lemma from_bytes_to_bytes (v length : Z) (o : byteorder) (signed : bool) (bs : list byte) :
  int_to_bytes v length o signed = Ok bs ->
  Z.of_nat (List.length bs) = length /\ int_from_bytes bs o signed = v.
Proof.
  unfold int_to_bytes.
  destruct (Z.ltb_spec length 0) as [| Hlen]; [discriminate |].
  destruct (fits v length signed) eqn:Hfits; [| discriminate].
  intros [= <-].
  rewrite length_in_order, length_le_bytes. split; [lia |].
  unfold int_from_bytes.
  rewrite in_order_involutive, length_in_order, length_le_bytes, le_value_le_bytes.
  rewrite Z2Nat.id by lia.
  destruct signed; cbn [andb].
  - destruct (Z.ltb_spec 0 (8 * length)) as [Hpos | Hzero].
    + apply fits_signed in Hfits; [| lia].
      rewrite <- pow256 by lia.
      pose proof (pow2_half length ltac:(lia)) as Hhalf. cbn [andb].
      destruct (Z.leb_spec (2 ^ (8 * length - 1)) (v mod 256 ^ length)) as [Hhi | Hlo].
      * destruct (Z.neg_nonneg_cases v) as [Hneg | Hnn].
        -- rewrite <- (Z.mod_add v 1) by lia. rewrite Z.mod_small; lia.
        -- rewrite Z.mod_small in Hhi; lia.
      * destruct (Z.neg_nonneg_cases v) as [Hneg | Hnn].
        -- rewrite <- (Z.mod_add v 1) in Hlo by lia. rewrite Z.mod_small in Hlo; lia.
        -- rewrite Z.mod_small; lia.
    + assert (length = 0) by lia. subst length. cbn [andb].
      unfold fits in Hfits. change (256 ^ 0) with 1 in *.
      rewrite Z.mod_1_r. lia.
  - apply fits_unsigned in Hfits. now apply Z.mod_small.
Qed.

Lemma to_bytes_fits (v length : Z) (o : byteorder) (signed : bool) :
  0 <= length -> fits v length signed = true ->
  int_to_bytes v length o signed = Ok (in_order o (le_bytes (Z.to_nat length) v)).
Proof.
  intros Hlen Hfits. unfold int_to_bytes.
  destruct (Z.ltb_spec length 0); [lia |]. now rewrite Hfits.
Qed.

Lemma to_bytes_overflow (v length : Z) (o : byteorder) (signed : bool) :
  0 <= length -> fits v length signed = false ->
  int_to_bytes v length o signed = Raise OverflowError.
Proof.
  intros Hlen Hfits. unfold int_to_bytes.
  destruct (Z.ltb_spec length 0); [lia |]. now rewrite Hfits.
Qed.

(** One write, then one read of the same range, for each byte order and
    signedness. *)
Lemma write_then_read (o : byteorder) (signed : bool)
    (data : buffer) (v start length : Z) :
  0 <= start <= buffer_len data ->
  0 <= length ->
  kind data = Bytearray \/ start + length <= buffer_len data ->
  fits v length signed = true ->
  exists data',
    write_int o signed data v start length = (Ok tt, data')
    /\ int_from_bytes (buffer_slice data' start (start + length)) o signed = v.
Proof.
  intros Hstart Hlen Hroom Hfits. unfold write_int.
  pose proof (to_bytes_fits v length o signed Hlen Hfits) as Hbs.
  destruct (from_bytes_to_bytes _ _ _ _ _ Hbs) as [Hlength Hback].
  rewrite Hbs. set (bs := in_order o (le_bytes (Z.to_nat length) v)) in *.
  assert (Hread : Py.getslice (Py.setslice (contents data) start (start + length) bs)
                    start (start + length) = bs).
  { rewrite <- Hlength. apply getslice_setslice. exact Hstart. }
  unfold buffer_setslice, buffer_len in *.
  destruct (kind data) eqn:Hkind.
  - eexists. split; [reflexivity |]. unfold buffer_slice. cbn [contents].
    now rewrite Hread.
  - destruct Hroom as [Habs | Hroom]; [discriminate |].
    assert (Hsl : Z.of_nat (List.length (buffer_slice data start (start + length)))
                  = length).
    { unfold buffer_slice. rewrite length_getslice_le by lia. lia. }
    replace (Nat.eqb _ _) with true by (symmetry; apply Nat.eqb_eq; lia).
    eexists. split; [reflexivity |]. unfold buffer_slice. cbn [contents].
    now rewrite Hread.
  - destruct Hroom as [Habs | Hroom]; [discriminate |].
    assert (Hsl : Z.of_nat (List.length (buffer_slice data start (start + length)))
                  = length).
    { unfold buffer_slice. rewrite length_getslice_le by lia. lia. }
    replace (Nat.eqb _ _) with true by (symmetry; apply Nat.eqb_eq; lia).
    eexists. split; [reflexivity |]. unfold buffer_slice. cbn [contents].
    now rewrite Hread.
Qed.

End Codec.

(** C1. For every width [n] from 1 to 8 and every value [v] that [n] bytes
    represent, [write_uintle(buf, v, 0, n)] followed by
    [read_uintle(buf, 0, n)] returns [v], and so do the big-endian pair (for
    [0 <= v < 256^n]) and the two signed pairs (for
    [-2^(8n-1) <= v < 2^(8n-1)]). The buffer is any buffer of at least [n]
    bytes, or a shorter [bytearray] on which no export is alive. *)
Theorem codec_roundtrip (data : buffer) (n v : Z) :
  1 <= n <= 8 ->
  kind data = Bytearray \/ n <= buffer_len data ->
  (0 <= v < 256 ^ n ->
   (exists data', write_uintle data v 0 n = (Ok tt, data')
                  /\ read_uintle data' 0 n = Ok v)
   /\ (exists data', write_uintbe data v 0 n = (Ok tt, data')
                     /\ read_uintbe data' 0 n = Ok v))
  /\ (- 2 ^ (8 * n - 1) <= v < 2 ^ (8 * n - 1) ->
      (exists data', write_sintle data v 0 n = (Ok tt, data')
                     /\ read_sintle data' 0 n = Ok v)
      /\ (exists data', write_sintbe data v 0 n = (Ok tt, data')
                        /\ read_sintbe data' 0 n = Ok v)).
Proof.
  intros Hn Hroom.
  assert (Hstart : 0 <= 0 <= buffer_len data) by (unfold buffer_len; lia).
  assert (Hroom' : kind data = Bytearray \/ 0 + n <= buffer_len data)
    by (destruct Hroom; [now left | right; lia]).
  assert (Hback : forall o signed, Py.fits v n signed = true ->
            exists data', write_int o signed data v 0 n = (Ok tt, data')
              /\ Ok (Py.int_from_bytes (buffer_slice data' 0 (0 + n)) o signed) = Ok v).
  { intros o signed Hfits.
    destruct (write_then_read o signed data v 0 n Hstart ltac:(lia) Hroom' Hfits)
      as [data' [Hw Hr]].
    exists data'. split; [exact Hw | now rewrite Hr]. }
  split; intros Hv.
  - apply fits_unsigned in Hv. split; apply Hback; exact Hv.
  - apply fits_signed in Hv; [| lia]. split; apply Hback; exact Hv.
Qed.

Lemma codec_roundtrip_witness :
  let data := mkBuffer Bytearray [x00; x00; x00] in
  (exists data', write_uintle data 513 0 2 = (Ok tt, data')
                 /\ read_uintle data' 0 2 = Ok 513)
  /\ (exists data', write_sintbe data (-2) 0 2 = (Ok tt, data')
                    /\ read_sintbe data' 0 2 = Ok (-2)).
Proof.
  intros data. split.
  - apply (codec_roundtrip data 2 513); [lia | now left | cbn; lia].
  - apply (codec_roundtrip data 2 (-2)); [lia | now left | cbn; lia].
Defined.

(** C2, as the claim states it, fails: a range that reaches past the end of
    a two-byte buffer (a [bytearray], no export alive) is read, and written,
    without any error. *)
Lemma out_of_range_is_no_error :
  let data := mkBuffer Bytearray [x01; x02] in
  buffer_len data < 1 + 4
  /\ read_bytes data 1 4 = Ok [x02]
  /\ read_uintle data 1 4 = Ok 2
  /\ read_sintbe data 1 4 = Ok 2
  /\ write_uintle data 5 1 4 = (Ok tt, mkBuffer Bytearray [x01; x05; x00; x00; x00]).
Proof. cbv. repeat split; reflexivity. Qed.

(** C2, amended. A range [start, start+length) that reaches past the end of
    the buffer ([start] not negative, [length] positive) raises nothing in a read:
    [read_bytes] returns the bytes from [start] to the end of the buffer,
    fewer than [length], and the integer reads decode these bytes. Writing a
    value that fits to such a range of a [bytearray] on which no export is
    alive raises nothing either: the bytes from [start] on give way to the
    [length] encoded ones and the buffer grows. Through a [memoryview] the
    write raises [ValueError], on a [bytearray] with an export alive it
    raises [BufferError], and both leave the buffer as it was. *)
Theorem out_of_range_clips (data : buffer) (start length : Z) :
  0 <= start -> 1 <= length -> buffer_len data < start + length ->
  let rest := skipn (Z.to_nat start) (contents data) in
  Z.of_nat (List.length rest) < length
  /\ read_bytes data start length = Ok rest
  /\ read_uintle data start length = Ok (Py.int_from_bytes rest Py.little false)
  /\ read_sintle data start length = Ok (Py.int_from_bytes rest Py.little true)
  /\ read_uintbe data start length = Ok (Py.int_from_bytes rest Py.big false)
  /\ read_sintbe data start length = Ok (Py.int_from_bytes rest Py.big true)
  /\ forall (to_write : Z),
       let written (bs : list byte) : result unit * buffer :=
         match kind data with
         | Bytearray =>
             (Ok tt, mkBuffer Bytearray (firstn (Z.to_nat start) (contents data) ++ bs))
         | Memoryview => (Raise ValueError, data)
         | ExportedBytearray => (Raise BufferError, data)
         end in
       (forall bs, Py.int_to_bytes to_write length Py.little false = Ok bs ->
                   write_uintle data to_write start length = written bs)
       /\ (forall bs, Py.int_to_bytes to_write length Py.little true = Ok bs ->
                      write_sintle data to_write start length = written bs)
       /\ (forall bs, Py.int_to_bytes to_write length Py.big false = Ok bs ->
                      write_uintbe data to_write start length = written bs)
       /\ (forall bs, Py.int_to_bytes to_write length Py.big true = Ok bs ->
                      write_sintbe data to_write start length = written bs).
Proof.
  intros Hstart Hlen Hpast rest. unfold buffer_len in Hpast.
  assert (Hslice : buffer_slice data start (start + length) = rest).
  { unfold buffer_slice. apply getslice_past_end; lia. }
  assert (Hshort : Z.of_nat (List.length rest) < length).
  { subst rest. rewrite length_skipn. lia. }
  unfold read_bytes, read_uintle, read_sintle, read_uintbe, read_sintbe.
  rewrite Hslice. do 6 (split; [first [exact Hshort | reflexivity] |]).
  intros to_write.
  pose (written := fun bs : list byte =>
          match kind data with
          | Bytearray =>
              (Ok tt, mkBuffer Bytearray (firstn (Z.to_nat start) (contents data) ++ bs))
          | Memoryview => (@Raise unit ValueError, data)
          | ExportedBytearray => (@Raise unit BufferError, data)
          end).
  assert (Hw : forall o signed bs, Py.int_to_bytes to_write length o signed = Ok bs ->
                 write_int o signed data to_write start length = written bs).
  { intros o signed bs Hbs. unfold write_int. rewrite Hbs.
    apply from_bytes_to_bytes in Hbs. destruct Hbs as [Hbl _].
    unfold buffer_setslice, written. destruct (kind data).
    - rewrite setslice_nonneg by lia.
      rewrite (skipn_all2 (contents data)) by lia. now rewrite app_nil_r.
    - rewrite Hslice.
      replace (Nat.eqb _ _) with false; [reflexivity |].
      symmetry. apply Nat.eqb_neq. lia.
    - rewrite Hslice.
      replace (Nat.eqb _ _) with false; [reflexivity |].
      symmetry. apply Nat.eqb_neq. lia. }
  repeat split; intros bs Hbs; exact (Hw _ _ bs Hbs).
Qed.

Lemma out_of_range_clips_witness :
  let data := mkBuffer Memoryview [x01; x02] in
  let pinned := mkBuffer ExportedBytearray [x01; x02] in
  read_uintle data 1 4 = Ok 2
  /\ write_uintle data 5 1 4 = (Raise ValueError, data)
  /\ write_uintle pinned 5 1 4 = (Raise BufferError, pinned).
Proof.
  intros data pinned.
  pose proof (out_of_range_clips data 1 4 ltac:(lia) ltac:(lia) ltac:(cbn; lia)) as H.
  pose proof (out_of_range_clips pinned 1 4 ltac:(lia) ltac:(lia) ltac:(cbn; lia)) as H'.
  destruct H as (_ & _ & Hr & _ & _ & _ & Hw).
  destruct H' as (_ & _ & _ & _ & _ & _ & Hw').
  split; [| split].
  - exact Hr.
  - destruct (Hw 5) as [Hle _]. apply (Hle [x05; x00; x00; x00]). reflexivity.
  - destruct (Hw' 5) as [Hle _]. apply (Hle [x05; x00; x00; x00]). reflexivity.
Defined.

(** C3. Each write raises [OverflowError] whenever [to_write] has no
    representation in [length] bytes ([length] at least 1) under its
    signedness: so [write_uintle(buf, 256, 0, 1)] and every negative value
    given to an unsigned write. Nothing is truncated or clamped, and the
    buffer that comes with the error is the one that was passed. *)
Theorem write_out_of_range_raises (data : buffer) (to_write start length : Z) :
  1 <= length ->
  (~ 0 <= to_write < 256 ^ length ->
   write_uintle data to_write start length = (Raise OverflowError, data)
   /\ write_uintbe data to_write start length = (Raise OverflowError, data))
  /\ (~ - 2 ^ (8 * length - 1) <= to_write < 2 ^ (8 * length - 1) ->
      write_sintle data to_write start length = (Raise OverflowError, data)
      /\ write_sintbe data to_write start length = (Raise OverflowError, data)).
Proof.
  intros Hlen.
  assert (Hw : forall o signed, Py.fits to_write length signed = false ->
                 write_int o signed data to_write start length
                 = (Raise OverflowError, data)).
  { intros o signed Hfits. unfold write_int.
    now rewrite to_bytes_overflow by (lia || exact Hfits). }
  split; intros Hv.
  - assert (Py.fits to_write length false = false).
    { apply not_true_is_false. now rewrite fits_unsigned. }
    split; now apply Hw.
  - assert (Py.fits to_write length true = false).
    { apply not_true_is_false. now rewrite fits_signed by lia. }
    split; now apply Hw.
Qed.

Lemma write_out_of_range_raises_witness :
  let data := mkBuffer Bytearray [x07; x08] in
  write_uintle data 256 0 1 = (Raise OverflowError, data)
  /\ write_uintbe data (-1) 0 1 = (Raise OverflowError, data)
  /\ write_sintle data 128 0 1 = (Raise OverflowError, data).
Proof.
  intros data. split; [| split].
  - apply (write_out_of_range_raises data 256 0 1); [lia | cbn; lia].
  - apply (write_out_of_range_raises data (-1) 0 1); [lia | cbn; lia].
  - apply (write_out_of_range_raises data 128 0 1); [lia | cbn; lia].
Defined.

(** ** lcm *)

(** C9. [lcm(x, y)] returns [x * y / gcd(x, y)], a division that leaves no
    remainder; [lcm(4, 6)] is 12 and [lcm(1, 1)] is 1; [lcm(0, 0)], and no
    other call, raises [ZeroDivisionError]. *)
Theorem lcm_spec :
  (forall x y : Z,
      lcm x y = if (x =? 0) && (y =? 0)
                then Raise ZeroDivisionError
                else Ok (x * y / gcd x y))
  /\ (forall x y : Z, gcd x y * (x * y / gcd x y) = x * y)
  /\ lcm 4 6 = Ok 12
  /\ lcm 1 1 = Ok 1
  /\ lcm 0 0 = Raise ZeroDivisionError.
Proof.
  split; [| split; [| repeat split]].
  - intros x y. unfold lcm, floordiv, gcd.
    destruct (Z.eqb_spec (Z.gcd x y) 0) as [Hg | Hg].
    + apply Z.gcd_eq_0 in Hg. destruct Hg as [-> ->]. reflexivity.
    + destruct (Z.eqb_spec x 0) as [-> |]; [| reflexivity].
      destruct (Z.eqb_spec y 0) as [-> |]; [| reflexivity].
      now rewrite Z.gcd_0_l in Hg.
  - intros x y. unfold gcd.
    destruct (Z.eq_dec (Z.gcd x y) 0) as [Hg | Hg].
    + rewrite Hg. apply Z.gcd_eq_0 in Hg. destruct Hg as [-> ->]. reflexivity.
    + symmetry. apply Z.div_exact; [exact Hg |].
      apply Z.mod_divide; [exact Hg |].
      apply Z.divide_mul_l, Z.gcd_divide_l.
Qed.

(** ** The file scanner *)

Section Scanner.

Local Open Scope string_scope.

Lemma append_assoc (a b c : string) : (a ++ b) ++ c = a ++ (b ++ c).
Proof.
  induction a as [| ch a IH]; cbn; [reflexivity | now rewrite IH].
Qed.

(** [endswith] is the suffix test. *)
Lemma endswith_spec (x s : string) :
  endswith x s = true <-> exists pre, x = pre ++ s.
Proof.
  induction x as [| ch x IH]; cbn [endswith].
  - rewrite orb_false_r, String.eqb_eq. split.
    + intros <-. now exists "".
    + intros [pre Hpre]. destruct pre; [exact Hpre | discriminate].
  - rewrite orb_true_iff, String.eqb_eq, IH. split.
    + intros [<- | [pre ->]].
      * now exists "".
      * now exists (String ch pre).
    + intros [[| ch' pre] Hpre].
      * now left.
      * right. injection Hpre as _ Hx. now exists pre.
Qed.

(** Induction over a tree of folders: the property holds of a folder once
    it holds of each of its subfolders. *)
Section FolderInduction.

Variable P : Folder -> Prop.
Hypothesis Hfolder :
  forall fs subs, Forall (fun s => P (snd s)) subs -> P (mkFolder fs subs).

Lemma Folder_induction (folder : Folder) : P folder.
Proof.
  revert folder. fix IH 1. intros [fs subs]. apply Hfolder.
  revert subs. fix each 1. intros [| s rest].
  - constructor.
  - constructor; [apply IH | apply each].
Qed.

End FolderInduction.

(** The loop over the subfolders appends what each of them yields, in
    order, to the matches of the folder itself. *)
Lemma recursion_unfold (path : string) (fs : list string)
    (subs : list (string * Folder)) (ext : string) :
  _get_files_from_rom_with_extension__recursion path (mkFolder fs subs) ext
  = List.app
      (map (fun x => path ++ x) (filter (fun x => endswith x ("." ++ ext)) fs))
      (flat_map (fun s => _get_files_from_rom_with_extension__recursion
                            (path ++ fst s ++ "/") (snd s) ext) subs).
Proof.
  cbn [_get_files_from_rom_with_extension__recursion].
  generalize (map (fun x => path ++ x) (filter (fun x => endswith x ("." ++ ext)) fs)).
  induction subs as [| [name sub] subs IH]; intros acc.
  - cbn. now rewrite app_nil_r.
  - cbn [flat_map fst snd]. rewrite IH, app_assoc. reflexivity.
Qed.

(** Scanning below a prefix is scanning from the root, each path then
    prefixed. *)
Lemma recursion_prefix (folder : Folder) (ext path : string) :
  _get_files_from_rom_with_extension__recursion path folder ext
  = map (fun p => path ++ p)
        (_get_files_from_rom_with_extension__recursion "" folder ext).
Proof.
  revert path. induction folder as [fs subs IH] using Folder_induction.
  intros path. rewrite !recursion_unfold, map_app, map_map. f_equal.
  induction subs as [| [name sub] subs IHsubs]; [reflexivity |].
  inversion IH as [| ? ? Hsub Hrest]; subst.
  cbn [flat_map fst snd] in *. rewrite map_app, IHsubs by exact Hrest.
  f_equal. rewrite (Hsub (path ++ name ++ "/")), (Hsub ("" ++ name ++ "/")).
  rewrite map_map. apply map_ext. intros p. cbn. now rewrite !append_assoc.
Qed.

Lemma path_of_cons (name : string) (dirs : list string) (x : string) :
  path_of (name :: dirs) x = (name ++ "/") ++ path_of dirs x.
Proof. cbn. now rewrite append_assoc. Qed.

(** The paths returned are those of the files of the tree whose name ends
    with the extension. *)
Lemma recursion_complete (folder : Folder) (ext p : string) :
  In p (_get_files_from_rom_with_extension__recursion "" folder ext)
  <-> exists dirs x,
        file_at folder dirs x
        /\ endswith x ("." ++ ext) = true
        /\ p = path_of dirs x.
Proof.
  revert p. induction folder as [fs subs IH] using Folder_induction.
  intros p. rewrite recursion_unfold, in_app_iff, in_map_iff, in_flat_map.
  rewrite Forall_forall in IH. split.
  - intros [[x [<- Hx]] | [[name sub] [Hin Hp]]].
    + apply filter_In in Hx. destruct Hx as [Hx Hext].
      exists [], x. repeat split; [now constructor | exact Hext].
    + cbn [fst snd] in Hp. rewrite recursion_prefix in Hp.
      apply in_map_iff in Hp. destruct Hp as [q [<- Hq]].
      apply (IH _ Hin) in Hq. destruct Hq as (dirs & x & Hat & Hext & ->).
      exists (name :: dirs), x. split; [| split].
      * econstructor; eassumption.
      * exact Hext.
      * now rewrite path_of_cons.
  - intros (dirs & x & Hat & Hext & ->).
    inversion Hat as [? ? ? Hx | ? ? name sub dirs' ? Hin Hsub]; subst.
    + left. exists x. split; [reflexivity |]. apply filter_In. now split.
    + right. exists (name, sub). split; [exact Hin |].
      cbn [fst snd]. rewrite recursion_prefix. apply in_map_iff.
      exists (path_of dirs' x). split; [now rewrite path_of_cons |].
      apply (IH _ Hin). exists dirs', x. now repeat split.
Qed.

End Scanner.

(** C8. [get_files_from_rom_with_extension(rom, ext)] scans the tree depth
    first from an empty prefix: a folder yields first its own file names that
    end with ['.' + ext], in the folder's order and each behind the prefix,
    then what each subfolder yields, in the tree's order, under the prefix
    extended by the subfolder's name and a slash. The paths returned are
    exactly those of the files of the tree with such a name, each the names
    of the folders descended, every one followed by a slash, then the file
    name. A root with [a.txt], [b.bin] and a subfolder [sub] holding [c.txt]
    yields [a.txt] and [sub/c.txt] for [txt]. *)
Theorem scanner_spec :
  (forall rom ext,
      get_files_from_rom_with_extension rom ext
      = _get_files_from_rom_with_extension__recursion "" (filenames rom) ext)
  /\ (forall path fs subs ext,
         _get_files_from_rom_with_extension__recursion path (mkFolder fs subs) ext
         = map (fun x => (path ++ x)%string)
               (filter (fun x => endswith x ("." ++ ext)%string) fs)
           ++ flat_map (fun s => _get_files_from_rom_with_extension__recursion
                                   (path ++ fst s ++ "/")%string (snd s) ext) subs)
  /\ (forall rom ext p,
         In p (get_files_from_rom_with_extension rom ext)
         <-> exists dirs x,
               file_at (filenames rom) dirs x
               /\ (exists stem, x = (stem ++ "." ++ ext)%string)
               /\ p = path_of dirs x)
  /\ get_files_from_rom_with_extension
       (mkRom (mkFolder ["a.txt"; "b.bin"]%string
                        [("sub"%string, mkFolder ["c.txt"%string] [])]))
       "txt"
     = ["a.txt"; "sub/c.txt"]%string.
Proof.
  split; [reflexivity |]. split; [exact recursion_unfold |]. split; [| reflexivity].
  intros rom ext p. unfold get_files_from_rom_with_extension.
  rewrite recursion_complete. split.
  - intros (dirs & x & Hat & Hext & Hp). exists dirs, x.
    apply endswith_spec in Hext. auto.
  - intros (dirs & x & Hat & Hext & Hp). exists dirs, x.
    apply endswith_spec in Hext. auto.
Qed.

(** ** The palette de-duplicator *)

Section Palette.

Implicit Types (color : list Z) (seen : list (list Z)) (palette : list Z).

Lemma list_eqb_eq (a b : list Z) : list_eqb a b = true <-> a = b.
Proof.
  revert b. induction a as [| x a IH]; intros [| y b]; cbn;
    try (split; [discriminate | discriminate]); [tauto |].
  rewrite andb_true_iff, Z.eqb_eq, IH. split.
  - now intros [-> ->].
  - now intros [= -> ->].
Qed.

Lemma color_in_In color seen : color_in color seen = true <-> In color seen.
Proof.
  unfold color_in. rewrite existsb_exists. split.
  - intros [c [Hin Heq]]. apply list_eqb_eq in Heq. now subst.
  - intros Hin. exists color. split; [exact Hin | now apply list_eqb_eq].
Qed.

Lemma color_in_false color seen : color_in color seen = false <-> ~ In color seen.
Proof.
  rewrite <- color_in_In. destruct (color_in color seen); split; congruence.
Qed.

(** *** The colors of a palette *)

Lemma chunks3_ind (P : list Z -> Prop) :
  P [] -> (forall a, P [a]) -> (forall a b, P [a; b]) ->
  (forall a b c rest, P rest -> P (a :: b :: c :: rest)) ->
  forall palette, P palette.
Proof.
  intros H0 H1 H2 H3.
  fix IH 1. intros [| a [| b [| c rest]]];
    [exact H0 | exact (H1 a) | exact (H2 a b) | exact (H3 a b c rest (IH rest))].
Qed.

Lemma colors_of_slices palette :
  colors_of palette
  = map (fun k => firstn 3 (skipn (3 * k) palette))
        (seq 0 ((List.length palette + 2) / 3)).
Proof.
  unfold colors_of, range3. rewrite map_map. apply map_ext. intros k.
  rewrite getslice_nonneg by lia. f_equal; [lia | f_equal; lia].
Qed.

(** The inner loop cuts the palette in threes. *)
Lemma colors_of_chunks3 palette : colors_of palette = chunks3 palette.
Proof.
  rewrite colors_of_slices.
  induction palette as [| a | a b | a b c rest IH] using chunks3_ind;
    try reflexivity.
  cbn [List.length chunks3]. rewrite <- IH.
  replace (S (S (S (List.length rest))) + 2)%nat
    with (1 * 3 + (List.length rest + 2))%nat by lia.
  rewrite Nat.div_add_l by lia. cbn [Nat.add seq map].
  f_equal. rewrite <- seq_shift, map_map. apply map_ext. intros k.
  replace (3 * S k)%nat with (S (S (S (3 * k)))) by lia. reflexivity.
Qed.

Lemma concat_chunks3 palette : List.concat (chunks3 palette) = palette.
Proof.
  induction palette as [| a | a b | a b c rest IH] using chunks3_ind;
    try reflexivity.
  cbn [chunks3 List.concat app]. now rewrite IH.
Qed.

Lemma chunked_chunks3 palette : chunked (chunks3 palette).
Proof.
  induction palette as [| a | a b | a b c rest IH] using chunks3_ind.
  - exact I.
  - cbn. lia.
  - cbn. lia.
  - cbn [chunks3 chunked]. destruct (chunks3 rest) eqn:E.
    + cbn. lia.
    + split; [reflexivity | exact IH].
Qed.

Lemma chunks3_concat (colors : list (list Z)) :
  chunked colors -> chunks3 (List.concat colors) = colors.
Proof.
  induction colors as [| c rest IH]; [reflexivity |].
  cbn [chunked]. destruct rest as [| c' rest'].
  - intros Hc. cbn [List.concat]. rewrite app_nil_r.
    destruct c as [| x [| y [| z [| ? ?]]]]; cbn in Hc; try lia; reflexivity.
  - intros [Hc Hrest].
    destruct c as [| x [| y [| z [| ? ?]]]]; cbn in Hc; try lia.
    change (List.concat ([x; y; z] :: c' :: rest'))
      with (x :: y :: z :: List.concat (c' :: rest')).
    cbn [chunks3]. now rewrite IH.
Qed.

Lemma chunks3_concat_app (colors : list (list Z)) palette :
  Forall (fun c => List.length c = 3%nat) colors ->
  chunks3 (List.concat colors ++ palette) = colors ++ chunks3 palette.
Proof.
  induction 1 as [| c rest Hc _ IH]; [reflexivity |].
  destruct c as [| x [| y [| z [| ? ?]]]]; try discriminate.
  cbn [List.concat app chunks3]. now rewrite IH.
Qed.

Lemma chunked_same_lengths (colors news : list (list Z)) :
  Forall2 (fun c n => List.length c = List.length n) colors news ->
  chunked colors -> chunked news.
Proof.
  induction 1 as [| c n colors news Hlen Hrest IH]; [trivial |].
  cbn [chunked]. destruct Hrest as [| c' n' colors' news' Hlen' Hrest'].
  - now rewrite Hlen.
  - intros [Hc Hch]. split; [now rewrite <- Hlen | now apply IH].
Qed.

Lemma chunks3_short palette :
  Forall (fun c => (List.length c <= 3)%nat) (chunks3 palette).
Proof.
  induction palette as [| a | a b | a b c rest IH] using chunks3_ind;
    cbn [chunks3]; repeat constructor; cbn; try lia. exact IH.
Qed.

Lemma length_concat_same (colors news : list (list Z)) :
  Forall2 (fun c n => List.length c = List.length n) colors news ->
  List.length (List.concat colors) = List.length (List.concat news).
Proof.
  induction 1 as [| c n colors news Hlen _ IH]; [reflexivity |].
  cbn [List.concat]. rewrite !length_app. lia.
Qed.

Lemma NoDup_snoc (seen : list (list Z)) (c : list Z) :
  NoDup seen -> ~ In c seen -> NoDup (seen ++ [c]).
Proof.
  induction 1 as [| x seen Hx _ IH]; intros Hc; cbn.
  - constructor; [intros [] | constructor].
  - constructor.
    + rewrite in_app_iff. intros [H | [-> | []]]; [now apply Hx | apply Hc; now left].
    + apply IH. intros H. apply Hc. now right.
Qed.

(** *** One call of the search *)

Lemma new_color_of_length color (cn ca : Z) (nc : list Z) :
  new_color_of color cn ca = Ok nc ->
  List.length nc = 3%nat /\ (3 <= List.length color)%nat.
Proof.
  unfold new_color_of, getitem, bind.
  destruct color as [| c0 [| c1 [| c2 rest]]]; cbn; try discriminate.
  intros [= <-]. split; [| lia].
  destruct (arm_of cn); reflexivity.
Qed.

(** A color not yet collected is returned as it is. *)
Lemma check_fresh (fuel : nat) color seen (cn ca : Z) :
  ~ In color seen -> _mpcu__check (S fuel) color seen cn ca = Some (Ok color).
Proof.
  intros Hc. apply color_in_false in Hc. cbn [_mpcu__check]. now rewrite Hc.
Qed.

(** What is returned is not among the colors collected, and it is either
    the color given or a triple found for a color of three channels or
    more. *)
Lemma check_result (fuel : nat) color seen (cn ca : Z) (r : list Z) :
  _mpcu__check fuel color seen cn ca = Some (Ok r) ->
  ~ In r seen
  /\ (r = color \/ (List.length r = 3%nat /\ (3 <= List.length color)%nat)).
Proof.
  revert color cn ca. induction fuel as [| fuel IH]; intros color cn ca;
    cbn [_mpcu__check]; [discriminate |].
  destruct (color_in color seen) eqn:Hin; cbn [negb].
  - destruct (new_color_of color cn ca) as [nc | e] eqn:Hnc; [| discriminate].
    intros Hr. apply IH in Hr. destruct Hr as [Hfresh Hshape].
    apply new_color_of_length in Hnc. destruct Hnc as [Hl3 Hlc].
    split; [exact Hfresh |]. right.
    destruct Hshape as [-> | [Hr _]]; auto.
  - intros [= <-]. split; [now apply color_in_false | now left].
Qed.

(** *** The two loops *)

Lemma for_color_idx_collect (fuel : nat) palette (idxs : list Z) seen (out_p : list Z) :
  for_color_idx fuel palette idxs seen out_p
  = collect fuel (map (fun i => Py.getslice palette i (i + 3)) idxs) seen out_p.
Proof.
  revert seen out_p. induction idxs as [| i idxs IH]; intros seen out_p;
    [reflexivity |].
  cbn [for_color_idx map collect].
  destruct (_mpcu__check fuel _ seen 0 1) as [[nc | e] |]; [apply IH | |]; reflexivity.
Qed.

Lemma for_color_idx_colors (fuel : nat) palette seen (out_p : list Z) :
  for_color_idx fuel palette (range3 (List.length palette)) seen out_p
  = collect fuel (chunks3 palette) seen out_p.
Proof.
  rewrite for_color_idx_collect. fold (colors_of palette).
  now rewrite colors_of_chunks3.
Qed.

Lemma collect_result (fuel : nat) (colors : list (list Z)) seen (out_p : list Z)
    (seen' : list (list Z)) (out_p' : list Z) :
  collect fuel colors seen out_p = Some (Ok (seen', out_p')) ->
  Forall (fun c => (List.length c <= 3)%nat) colors ->
  exists news,
    seen' = seen ++ news
    /\ out_p' = out_p ++ List.concat news
    /\ Forall2 (fun c n => List.length c = List.length n) colors news
    /\ (NoDup seen -> NoDup (seen ++ news)).
Proof.
  revert seen out_p. induction colors as [| c colors IH]; intros seen out_p.
  - intros [= <- <-] _. exists []. cbn. rewrite !app_nil_r. auto.
  - cbn [collect].
    destruct (_mpcu__check fuel c seen 0 1) as [[nc | e] |] eqn:Hcheck;
      try discriminate.
    intros Hrest Hshort. inversion Hshort as [| ? ? Hc Hshort']; subst.
    apply check_result in Hcheck. destruct Hcheck as [Hfresh Hshape].
    destruct (IH _ _ Hrest Hshort') as (news & -> & -> & Hlens & Hnodup).
    exists (nc :: news). rewrite <- !app_assoc. cbn [app List.concat].
    repeat split.
    + constructor; [| exact Hlens].
      destruct Hshape as [-> | [Hl3 Hlc]]; lia.
    + intros Hseen. change (nc :: news) with ([nc] ++ news). rewrite app_assoc.
      apply Hnodup. now apply NoDup_snoc.
Qed.

Lemma collect_unique (fuel : nat) (colors : list (list Z)) seen (out_p : list Z) :
  NoDup (seen ++ colors) ->
  collect (S fuel) colors seen out_p
  = Some (Ok (seen ++ colors, out_p ++ List.concat colors)).
Proof.
  revert seen out_p. induction colors as [| c colors IH]; intros seen out_p Hnd.
  - cbn. now rewrite !app_nil_r.
  - cbn [collect]. rewrite check_fresh.
    + rewrite IH.
      * now rewrite <- !app_assoc.
      * now rewrite <- app_assoc.
    + apply NoDup_remove_2 in Hnd. rewrite in_app_iff in Hnd. tauto.
Qed.

Lemma for_palette_unique (fuel : nat) (inp : list (list Z)) seen (out : list (list Z)) :
  NoDup (seen ++ List.concat (map colors_of inp)) ->
  for_palette (S fuel) inp seen out = Some (Ok (out ++ inp)).
Proof.
  revert seen out. induction inp as [| palette inp IH]; intros seen out Hnd.
  - cbn. now rewrite app_nil_r.
  - cbn [for_palette map List.concat] in *.
    rewrite colors_of_chunks3 in Hnd. rewrite app_assoc in Hnd.
    rewrite for_color_idx_colors, collect_unique.
    + cbn [app]. rewrite concat_chunks3, IH by exact Hnd.
      now rewrite <- app_assoc.
    + apply NoDup_app_remove_r in Hnd. exact Hnd.
Qed.

Lemma for_palette_result (fuel : nat) (inp : list (list Z)) seen
    (out out' : list (list Z)) :
  for_palette fuel inp seen out = Some (Ok out') ->
  NoDup seen ->
  exists outs,
    out' = out ++ outs
    /\ Forall2 (fun p q => List.length p = List.length q) inp outs
    /\ NoDup (seen ++ List.concat (map colors_of outs)).
Proof.
  revert seen out. induction inp as [| palette inp IH]; intros seen out.
  - intros [= <-] Hnd. exists []. cbn. rewrite !app_nil_r. auto.
  - cbn [for_palette]. rewrite for_color_idx_colors.
    destruct (collect fuel (chunks3 palette) seen []) as [[[seen' out_p] | e] |] eqn:Hc;
      try discriminate.
    intros Hrest Hnd.
    destruct (collect_result _ _ _ _ _ _ Hc (chunks3_short palette))
      as (news & -> & -> & Hlens & Hnodup).
    destruct (IH _ _ Hrest (Hnodup Hnd)) as (outs & -> & Hshape & Hnd').
    cbn [app] in *.
    exists (List.concat news :: outs). rewrite <- app_assoc. cbn [app].
    split; [reflexivity |]. split.
    + constructor; [| exact Hshape].
      rewrite <- (length_concat_same _ _ Hlens). now rewrite concat_chunks3.
    + cbn [map List.concat]. rewrite colors_of_chunks3, chunks3_concat.
      * now rewrite app_assoc.
      * apply (chunked_same_lengths _ _ Hlens), chunked_chunks3.
Qed.

End Palette.

(** C6. Whenever [make_palette_colors_unique] returns, its output has the
    shape of its input, as many palettes and each as long as the one it
    comes from, and no color occurs twice among the colors of all the output
    palettes together. *)
Theorem output_shape_and_unique (fuel : nat) (inp out : list (list Z)) :
  make_palette_colors_unique fuel inp = Some (Ok out) ->
  List.length out = List.length inp
  /\ Forall2 (fun palette out_p => List.length palette = List.length out_p) inp out
  /\ NoDup (List.concat (map colors_of out)).
Proof.
  unfold make_palette_colors_unique. intros Hrun.
  destruct (for_palette_result _ _ _ _ _ Hrun (NoDup_nil _))
    as (outs & -> & Hshape & Hnd).
  cbn [app] in *. split; [| split].
  - symmetry. exact (Forall2_length Hshape).
  - exact Hshape.
  - exact Hnd.
Qed.

Lemma output_shape_and_unique_witness :
  let out := [[10; 10; 10; 11; 10; 10]; [10; 11; 10]] in
  List.length out = 2%nat
  /\ Forall2 (fun palette out_p => List.length palette = List.length out_p)
       [[10; 10; 10; 10; 10; 10]; [10; 10; 10]] out
  /\ NoDup (List.concat (map colors_of out)).
Proof.
  intros out.
  apply (output_shape_and_unique 5 [[10; 10; 10; 10; 10; 10]; [10; 10; 10]] out).
  reflexivity.
Defined.

(** C7. On an input in which no color occurs twice, all palettes taken
    together, [make_palette_colors_unique] returns a collection equal to the
    input: the same palettes with the same values in the same order. *)
Theorem unique_input_unchanged (fuel : nat) (inp : list (list Z)) :
  (1 <= fuel)%nat ->
  NoDup (List.concat (map colors_of inp)) ->
  make_palette_colors_unique fuel inp = Some (Ok inp).
Proof.
  intros Hfuel Hnd. destruct fuel as [| fuel]; [lia |].
  unfold make_palette_colors_unique.
  now rewrite for_palette_unique by exact Hnd.
Qed.

Lemma unique_input_unchanged_witness :
  make_palette_colors_unique 1 [[1; 2; 3; 4; 5; 6]; [7; 8; 9]]
  = Some (Ok [[1; 2; 3; 4; 5; 6]; [7; 8; 9]]).
Proof.
  apply unique_input_unchanged; [lia |].
  cbv. repeat constructor; cbn; intuition discriminate.
Defined.

(** ** The search as a walk through the cycle *)

Section Walk.

Lemma clamp_range (x : Z) : 0 <= clamp x <= 255.
Proof.
  unfold clamp. destruct (Z.ltb_spec x 0); [lia |].
  destruct (Z.gtb_spec x 255); lia.
Qed.

Lemma move_range (d : direction) (amount : Z) (c : rgb) :
  let '(r, g, b) := move d amount c in
  0 <= r <= 255 /\ 0 <= g <= 255 /\ 0 <= b <= 255.
Proof.
  destruct d as [[dr dg] db], c as [[r g] b]. cbn [move].
  auto using clamp_range.
Qed.

(** The arm taken for [change_next = i mod 8] moves in the direction the
    cycle has at that place. *)
Lemma new_color_of_move (c : rgb) (i : nat) (amount : Z) :
  new_color_of (color_of c) (Z.of_nat (i mod 8)) amount
  = Ok (color_of (move (nth (i mod 8) cycle (0, 0, 0)) amount c)).
Proof.
  destruct c as [[r g] b].
  pose proof (Nat.mod_upper_bound i 8 ltac:(lia)) as Hlt.
  destruct (i mod 8)%nat as [| [| [| [| [| [| [| [| k]]]]]]]]; try lia;
    cbn -[Z.mul Z.add Z.sub clamp]; repeat f_equal; lia.
Qed.

Lemma next_change_next (i : nat) :
  (Z.of_nat (i mod 8) + 1) mod 8 = Z.of_nat (S i mod 8).
Proof. lia. Qed.

Lemma next_change_amount (i : nat) :
  (if Z.of_nat (S i mod 8) =? 0
   then 1 + Z.of_nat (i / 8) + 1
   else 1 + Z.of_nat (i / 8))
  = 1 + Z.of_nat (S i / 8).
Proof. destruct (Z.eqb_spec (Z.of_nat (S i mod 8)) 0); lia. Qed.

(** The call made for the [i]-th candidate has [change_next = i mod 8] and
    [change_amount = 1 + i / 8], and returns the first candidate from
    there on that is not yet collected. *)
Lemma check_walks (seen : list (list Z)) (c : rgb) (fuel i : nat) :
  _mpcu__check fuel (color_of (candidate cycle c i)) seen
    (Z.of_nat (i mod 8)) (1 + Z.of_nat (i / 8))
  = option_map Ok (first_fresh cycle seen c i fuel).
Proof.
  revert i. induction fuel as [| fuel IH]; intros i; [reflexivity |].
  cbn [_mpcu__check first_fresh].
  destruct (color_in (color_of (candidate cycle c i)) seen); cbn [negb];
    [| reflexivity].
  rewrite new_color_of_move. cbv zeta.
  rewrite next_change_next, next_change_amount.
  exact (IH (S i)).
Qed.





End Walk.

(** C4, as the claim states it, fails: with the eight directions the
    specification lists, the eighth being G+ and B+, the search would return
    [[12; 11; 10]] where [_mpcu__check], whose eighth arm lowers G and raises
    B, returns [[10; 9; 10]]. *)
Lemma claimed_cycle_is_not_walked :
  let seen := [ [10; 10; 10]; [11; 10; 10]; [10; 11; 10]; [10; 10; 11];
                [10; 11; 11]; [11; 11; 11]; [11; 11; 10]; [10; 10; 9] ] in
  new_color_of [10; 10; 9] 7 1 = Ok [10; 9; 10]
  /\ color_of (move (nth 7 claimed_cycle (0, 0, 0)) 1 (10, 10, 9)) = [10; 11; 10]
  /\ _mpcu__check 10 [10; 10; 10] seen 0 1 = Some (Ok [10; 9; 10])
  /\ option_map Ok (first_fresh claimed_cycle seen (10, 10, 10) 0 10)
     = Some (Ok [12; 11; 10])
  /\ make_palette_colors_unique 10 [List.concat seen ++ [10; 10; 10]]
     = Some (Ok [List.concat seen ++ [10; 9; 10]]).
Proof. cbv zeta. repeat split; vm_compute; reflexivity. Qed.

(** C4, amended. For a color already collected, [_mpcu__check] returns the
    first color not yet collected on a walk that starts at this color and
    takes its step [i] (from 0) in the direction [i mod 8] of the cycle R+;
    R- and G+; G- and B+; G+; R+; B-; R-, G- and B-; G- and B+, with the
    amount [1 + i / 8]: 1 in the first pass and 1 more in each further pass.
    Each step moves from the candidate before it and clamps every channel to
    0 .. 255. *)
Theorem search_walks_cycle (r g b : Z) (seen : list (list Z)) (fuel : nat) :
  _mpcu__check fuel [r; g; b] seen 0 1
  = option_map Ok (first_fresh cycle seen (r, g, b) 0 fuel)
  /\ (forall i,
        candidate cycle (r, g, b) (S i)
        = move (nth (i mod 8) cycle (0, 0, 0)) (1 + Z.of_nat (i / 8))
               (candidate cycle (r, g, b) i))
  /\ (forall i,
        let '(r', g', b') := candidate cycle (r, g, b) (S i) in
        0 <= r' <= 255 /\ 0 <= g' <= 255 /\ 0 <= b' <= 255).
Proof.
  split; [| split].
  - exact (check_walks seen (r, g, b) fuel 0).
  - reflexivity.
  - intros i. cbn [candidate]. apply move_range.
Qed.


(** ** A search without end *)

Section Stuck.

Variable seen : list (list Z).

(** While the colors met are all collected, the search only goes on. *)
Lemma skip_some (n : nat) (color : list Z) (cn ca : Z) (st : list Z * Z * Z) :
  skip n color seen cn ca = Some st ->
  forall fuel,
    _mpcu__check (n + fuel) color seen cn ca
    = _mpcu__check fuel (fst (fst st)) seen (snd (fst st)) (snd st).
Proof.
  revert color cn ca. induction n as [| n IH]; intros color cn ca.
  - intros [= <-] fuel. reflexivity.
  - cbn [skip]. destruct (color_in color seen) eqn:Hin; [| discriminate].
    destruct (new_color_of color cn ca) as [nc | e] eqn:Hnc; [| discriminate].
    intros Hskip fuel. cbn [Nat.add _mpcu__check]. rewrite Hin, Hnc. cbn [negb].
    exact (IH _ _ _ Hskip fuel).
Qed.

Lemma skip_none (n : nat) (color : list Z) (cn ca : Z) (st : list Z * Z * Z) :
  skip n color seen cn ca = Some st ->
  forall fuel, (fuel <= n)%nat -> _mpcu__check fuel color seen cn ca = None.
Proof.
  revert color cn ca. induction n as [| n IH]; intros color cn ca Hskip fuel Hle.
  - now replace fuel with 0%nat by lia.
  - destruct fuel as [| fuel]; [reflexivity |].
    cbn [skip] in Hskip. destruct (color_in color seen) eqn:Hin; [| discriminate].
    destruct (new_color_of color cn ca) as [nc | e] eqn:Hnc; [| discriminate].
    cbn [_mpcu__check]. rewrite Hin, Hnc. cbn [negb].
    apply (IH _ _ _ Hskip). lia.
Qed.

Lemma clamp_above (x amount : Z) : 0 <= x -> 255 <= amount -> clamp (x + amount) = 255.
Proof.
  intros Hx Ha. unfold clamp.
  destruct (Z.ltb_spec (x + amount) 0); [lia |].
  destruct (Z.gtb_spec (x + amount) 255); lia.
Qed.

Lemma clamp_below (x amount : Z) : x <= 255 -> 255 <= amount -> clamp (x - amount) = 0.
Proof.
  intros Hx Ha. unfold clamp.
  destruct (Z.ltb_spec (x - amount) 0); [lia |].
  destruct (Z.gtb_spec (x - amount) 255); lia.
Qed.

(** With an amount of 255 or more, each arm leads from one corner to the
    next. *)
Lemma corner_step (k : nat) (amount : Z) :
  (k < 8)%nat -> 255 <= amount ->
  new_color_of (corner k) (Z.of_nat k) amount = Ok (corner (S k mod 8)).
Proof.
  intros Hk Ha.
  destruct k as [| [| [| [| [| [| [| [| k]]]]]]]]; try lia;
    cbn -[Z.add Z.sub clamp];
    rewrite ?clamp_above, ?clamp_below by lia; reflexivity.
Qed.

Hypothesis corners_collected :
  forallb (fun k => color_in (corner k) seen) (seq 0 8) = true.

Lemma corners_forever (fuel k : nat) (amount : Z) :
  (k < 8)%nat -> 255 <= amount ->
  _mpcu__check fuel (corner k) seen (Z.of_nat k) amount = None.
Proof.
  revert k amount. induction fuel as [| fuel IH]; intros k amount Hk Ha;
    [reflexivity |].
  cbn [_mpcu__check].
  assert (Hin : color_in (corner k) seen = true).
  { rewrite forallb_forall in corners_collected.
    apply corners_collected, in_seq. lia. }
  rewrite Hin. cbn [negb]. rewrite corner_step by assumption. cbv zeta.
  replace ((Z.of_nat k + 1) mod 8) with (Z.of_nat (S k mod 8)) by lia.
  apply IH.
  - apply Nat.mod_upper_bound. lia.
  - destruct (Z.of_nat (S k mod 8) =? 0); lia.
Qed.

(** After [n] calls the amount is 255 or more and the walk is at the
    first corner. *)
Variables (start : list Z) (n : nat) (amount : Z).
Hypothesis amount_large : 255 <= amount.
Hypothesis corner_reached : skip n start seen 0 1 = Some (corner 0, 0, amount).

(** The start is collected, and so is every color the search then goes
    through: no depth of recursion is enough. *)
Lemma search_stuck (fuel : nat) : _mpcu__check fuel start seen 0 1 = None.
Proof.
  destruct (Nat.le_gt_cases fuel n) as [Hle | Hgt].
  - exact (skip_none _ _ _ _ _ corner_reached fuel Hle).
  - replace fuel with (n + (fuel - n))%nat by lia.
    rewrite (skip_some _ _ _ _ _ corner_reached). cbn [fst snd].
    apply (corners_forever _ 0%nat); [lia | exact amount_large].
Qed.

(** The palette that holds each color of [seen] once and then [start]. *)
Hypothesis seen_NoDup : NoDup seen.
Hypothesis seen_triples :
  forallb (fun c => Nat.eqb (List.length c) 3) seen = true.
Hypothesis start_triple : chunks3 start = [start].

Lemma collect_stuck (fuel : nat) (out_p : list Z) :
  collect fuel (seen ++ [start]) [] out_p = None.
Proof.
  destruct fuel as [| fuel].
  - destruct seen; reflexivity.
  - assert (Happ : forall cs collected out,
               NoDup (collected ++ cs) ->
               collect (S fuel) (cs ++ [start]) collected out
               = collect (S fuel) [start] (collected ++ cs) (out ++ List.concat cs)).
    { induction cs as [| c cs IH]; intros collected out Hnd.
      - cbn [app List.concat]. now rewrite !app_nil_r.
      - cbn [app collect]. rewrite check_fresh.
        + rewrite IH by now rewrite <- app_assoc.
          now rewrite <- !app_assoc.
        + apply NoDup_remove_2 in Hnd. rewrite in_app_iff in Hnd. tauto. }
    rewrite Happ by exact seen_NoDup. cbn [app collect].
    now rewrite search_stuck.
Qed.

Lemma palette_stuck (fuel : nat) :
  make_palette_colors_unique fuel [List.concat seen ++ start] = None.
Proof.
  unfold make_palette_colors_unique. cbn [for_palette].
  rewrite for_color_idx_colors, chunks3_concat_app, start_triple.
  - now rewrite collect_stuck.
  - apply Forall_forall. intros c Hc.
    rewrite forallb_forall in seen_triples. now apply Nat.eqb_eq, seen_triples.
Qed.

End Stuck.

(** C5 does not hold of the code. [stuck_palette] has 1533 colors: the 1532
    different ones that the search goes through from black, then black a
    second time. The first 1532 are returned as they are; the search for the
    last one finds every candidate collected, at any depth, and
    [make_palette_colors_unique] does not return. *)
Theorem stuck_palette_never_returns (fuel : nat) :
  List.length stuck_colors = 1532%nat
  /\ _mpcu__check fuel [0; 0; 0] stuck_colors 0 1 = None
  /\ make_palette_colors_unique fuel [stuck_palette] = None.
Proof.
  assert (Hcorners : forallb (fun k => color_in (corner k) stuck_colors) (seq 0 8) = true)
    by (vm_compute; reflexivity).
  assert (Hskip : skip 2040 [0; 0; 0] stuck_colors 0 1 = Some (corner 0, 0, 256))
    by (vm_compute; reflexivity).
  assert (Htriples : forallb (fun c => Nat.eqb (List.length c) 3) stuck_colors = true)
    by (vm_compute; reflexivity).
  assert (Hlarge : 255 <= 256) by lia.
  split; [vm_compute; reflexivity |]. split.
  - exact (search_stuck stuck_colors Hcorners [0; 0; 0] 2040 256 Hlarge Hskip fuel).
  - exact (palette_stuck stuck_colors Hcorners [0; 0; 0] 2040 256 Hlarge Hskip
             (NoDup_nodup (list_eq_dec Z.eq_dec) (trajectory 2049 [0; 0; 0] 0 1))
             Htriples eq_refl fuel).
Qed.


(** * Further properties of the module *)

(** ** More on slices *)

Section SliceFacts.

Context {A : Type}.
Implicit Types l new : list A.

Lemma nth_error_getslice l (lo hi : Z) (i : nat) :
  0 <= lo <= hi ->
  nth_error (Py.getslice l lo hi) i
  = if Nat.ltb i (Z.to_nat (hi - lo)) then nth_error l (Z.to_nat lo + i) else None.
Proof.
  intros H. rewrite getslice_nonneg by exact H.
  rewrite nth_error_firstn, nth_error_skipn. reflexivity.
Qed.

(** A slice is never longer than its bounds are apart, unless the first
    bound counts from the start and the second from the end. *)
Lemma length_getslice_bound l (lo hi : Z) :
  lo < 0 \/ 0 <= hi ->
  Z.of_nat (List.length (Py.getslice l lo hi)) <= Z.max 0 (hi - lo).
Proof.
  intros H. unfold Py.getslice. rewrite length_firstn, length_skipn. unfold Py.clip.
  destruct (Z.ltb_spec lo 0), (Z.ltb_spec hi 0); lia.
Qed.

Lemma getslice_empty l (lo hi : Z) :
  lo < 0 \/ 0 <= hi -> hi <= lo -> Py.getslice l lo hi = [].
Proof.
  intros Hside H. apply length_zero_iff_nil.
  pose proof (length_getslice_bound l lo hi Hside). lia.
Qed.

(** Two slices that meet make one. *)
Lemma getslice_app l (a b c : Z) :
  0 <= a <= b -> b <= c ->
  Py.getslice l a b ++ Py.getslice l b c = Py.getslice l a c.
Proof.
  intros Hab Hbc. apply nth_error_ext. intros i.
  rewrite nth_error_app, !nth_error_getslice by lia.
  assert (Hlen : Z.of_nat (List.length (Py.getslice l a b))
                 = Z.max 0 (Z.min b (Z.of_nat (List.length l)) - a))
    by (apply length_getslice_le; lia).
  destruct (Nat.ltb_spec i (List.length (Py.getslice l a b))) as [Hi | Hi].
  - destruct (Nat.ltb_spec i (Z.to_nat (b - a))); [| lia].
    destruct (Nat.ltb_spec i (Z.to_nat (c - a))); [reflexivity | lia].
  - destruct (Nat.ltb_spec (i - List.length (Py.getslice l a b)) (Z.to_nat (c - b)))
      as [Hj | Hj];
      destruct (Nat.ltb_spec i (Z.to_nat (c - a))) as [Hk | Hk].
    + destruct (Z.le_gt_cases b (Z.of_nat (List.length l))).
      * f_equal. lia.
      * transitivity (@None A); [| symmetry]; apply nth_error_None; lia.
    + destruct (Z.le_gt_cases b (Z.of_nat (List.length l))); [lia |].
      apply nth_error_None. lia.
    + symmetry. apply nth_error_None. lia.
    + reflexivity.
Qed.

(** What a slice assignment of as many elements as the slice has leaves
    alone. *)
Lemma nth_error_setslice_outside l (lo : Z) new (j : nat) :
  0 <= lo -> lo + Z.of_nat (List.length new) <= Z.of_nat (List.length l) ->
  (j < Z.to_nat lo \/ Z.to_nat lo + List.length new <= j)%nat ->
  nth_error (Py.setslice l lo (lo + Z.of_nat (List.length new)) new) j = nth_error l j.
Proof.
  intros Hlo Hhi Hj. rewrite setslice_nonneg by lia.
  rewrite !nth_error_app, nth_error_firstn, length_firstn.
  rewrite Nat.min_l by lia.
  destruct (Nat.ltb_spec j (Z.to_nat lo)) as [Hin | Hout].
  - reflexivity.
  - destruct Hj as [Hj | Hj]; [lia |].
    destruct (Nat.ltb_spec (j - Z.to_nat lo) (List.length new)); [lia |].
    rewrite nth_error_skipn. f_equal. lia.
Qed.

Lemma length_setslice_same l (lo : Z) new :
  0 <= lo -> lo + Z.of_nat (List.length new) <= Z.of_nat (List.length l) ->
  List.length (Py.setslice l lo (lo + Z.of_nat (List.length new)) new) = List.length l.
Proof.
  intros Hlo Hhi. rewrite setslice_nonneg by lia.
  rewrite !length_app, length_firstn, length_skipn. lia.
Qed.

(** Storing a slice where it was taken changes nothing. *)
Lemma setslice_getslice l (lo hi : Z) :
  0 <= lo <= hi -> hi <= Z.of_nat (List.length l) ->
  Py.setslice l lo hi (Py.getslice l lo hi) = l.
Proof.
  intros H Hhi. rewrite setslice_nonneg, getslice_nonneg by lia.
  rewrite <- (firstn_skipn (Z.to_nat lo) l) at 4. f_equal.
  rewrite <- (firstn_skipn (Z.to_nat (hi - lo)) (skipn (Z.to_nat lo) l)) at 2.
  f_equal. rewrite skipn_skipn. f_equal. lia.
Qed.

End SliceFacts.

(** ** More on the integer codec *)

Section CodecFacts.

Import Py.

Lemma read_int_eq (o : byteorder) (signed : bool) (data : buffer) (start length : Z) :
  read_int o signed data start length
  = Ok (int_from_bytes (buffer_slice data start (start + length)) o signed).
Proof. destruct o, signed; reflexivity. Qed.

Lemma write_named_eq (o : byteorder) (signed : bool) (data : buffer) (v start length : Z) :
  write_named o signed data v start length = write_int o signed data v start length.
Proof. destruct o, signed; reflexivity. Qed.

Lemma representable_fits (signed : bool) (length v : Z) :
  1 <= length -> representable signed length v <-> fits v length signed = true.
Proof.
  intros H. unfold representable. destruct signed.
  - symmetry. now apply fits_signed.
  - symmetry. apply fits_unsigned.
Qed.

Lemma byte_of_Z_value (b : byte) : byte_of_Z (byte_value b) = b.
Proof.
  unfold byte_of_Z. pose proof (byte_value_range b) as Hb.
  rewrite Z.mod_small by exact Hb. unfold byte_value.
  rewrite N2Z.id, Byte.of_to_N. reflexivity.
Qed.

(** Encoding the value of a byte string in as many bytes gives the string
    back. *)
Lemma le_bytes_le_value (bs : list byte) :
  le_bytes (List.length bs) (le_value bs) = bs.
Proof.
  induction bs as [| b bs IH]; [reflexivity |].
  cbn [List.length le_bytes le_value]. pose proof (byte_value_range b) as Hb.
  f_equal.
  - replace ((byte_value b + 256 * le_value bs) mod 256) with (byte_value b) by lia.
    apply byte_of_Z_value.
  - replace ((byte_value b + 256 * le_value bs) / 256) with (le_value bs) by lia.
    exact IH.
Qed.

(** The [n] low bytes do not see a multiple of [256^n]. *)
Lemma le_bytes_shift (n : nat) (v k : Z) :
  le_bytes n (v + k * 256 ^ Z.of_nat n) = le_bytes n v.
Proof.
  revert v k. induction n as [| n IH]; intros v k; [reflexivity |].
  cbn [le_bytes]. rewrite Nat2Z.inj_succ, Z.pow_succ_r by lia.
  replace (v + k * (256 * 256 ^ Z.of_nat n))
    with (v + (k * 256 ^ Z.of_nat n) * 256) by ring.
  rewrite Z.mod_add, Z.div_add by lia. now rewrite IH.
Qed.

Lemma to_bytes_from_bytes (bs : list byte) (o : byteorder) (signed : bool) :
  int_to_bytes (int_from_bytes bs o signed) (Z.of_nat (List.length bs)) o signed = Ok bs.
Proof.
  unfold int_to_bytes, int_from_bytes.
  destruct (Z.ltb_spec (Z.of_nat (List.length bs)) 0); [lia |].
  set (n := List.length bs).
  assert (Hn : List.length (in_order o bs) = n) by apply length_in_order.
  pose proof (le_value_range (in_order o bs)) as Hu. rewrite Hn in Hu.
  set (u := le_value (in_order o bs)) in *.
  assert (Hback : le_bytes n u = in_order o bs)
    by (subst u; rewrite <- Hn; apply le_bytes_le_value).
  rewrite Nat2Z.id.
  destruct signed; cbn [andb].
  - destruct (Z.ltb_spec 0 (8 * Z.of_nat n)) as [Hpos | Hzero]; cbn [andb].
    + pose proof (pow2_half (Z.of_nat n) ltac:(lia)) as Hhalf.
      rewrite <- pow256 by lia.
      destruct (Z.leb_spec (2 ^ (8 * Z.of_nat n - 1)) u) as [Hhi | Hlo].
      * replace (fits (u - 256 ^ Z.of_nat n) (Z.of_nat n) true) with true
          by (symmetry; unfold fits; lia).
        replace (u - 256 ^ Z.of_nat n) with (u + (-1) * 256 ^ Z.of_nat n) by ring.
        rewrite le_bytes_shift, Hback. now rewrite in_order_involutive.
      * replace (fits u (Z.of_nat n) true) with true
          by (symmetry; unfold fits; lia).
        rewrite Hback. now rewrite in_order_involutive.
    + replace (fits u (Z.of_nat n) true) with true.
      * rewrite Hback. now rewrite in_order_involutive.
      * symmetry. unfold fits. assert (Hn0 : Z.of_nat n = 0) by lia.
        rewrite Hn0 in *. change (256 ^ 0) with 1 in *. lia.
  - replace (fits u (Z.of_nat n) false) with true
      by (symmetry; apply fits_unsigned; lia).
    rewrite Hback. now rewrite in_order_involutive.
Qed.

(** A write within the bounds, spelled out. *)
Lemma write_int_in_bounds (o : byteorder) (signed : bool) (data : buffer)
    (v start length : Z) (bs : list byte) :
  0 <= start -> start + length <= buffer_len data ->
  int_to_bytes v length o signed = Ok bs ->
  write_int o signed data v start length
  = (Ok tt, mkBuffer (kind data)
              (Py.setslice (contents data) start
                 (start + Z.of_nat (List.length bs)) bs)).
Proof.
  intros Hstart Hend Hbs. unfold write_int. rewrite Hbs.
  destruct (from_bytes_to_bytes _ _ _ _ _ Hbs) as [Hlen _].
  rewrite Hlen. unfold buffer_setslice, buffer_slice, buffer_len in *.
  assert (Hsame : Nat.eqb (List.length (Py.getslice (contents data) start (start + length)))
                     (List.length bs) = true).
  { apply Nat.eqb_eq.
    pose proof (length_getslice_le (contents data) start (start + length) ltac:(lia)).
    lia. }
  destruct (kind data); [reflexivity | |]; rewrite Hsame; reflexivity.
Qed.

End CodecFacts.

(** X1. An in-bounds write of a representable value succeeds, keeps the kind
    and the length of the buffer, stores the value (the matching read of the
    same range returns it) and changes no byte outside the range: every read
    of a range that lies before it or after it returns what it returned
    before. *)
Theorem write_in_bounds (o : Py.byteorder) (signed : bool) (data : buffer)
    (v start length : Z) :
  0 <= start -> 1 <= length -> start + length <= buffer_len data ->
  representable signed length v ->
  exists data',
    write_named o signed data v start length = (Ok tt, data')
    /\ kind data' = kind data
    /\ buffer_len data' = buffer_len data
    /\ read_int o signed data' start length = Ok v
    /\ forall a n,
         0 <= a -> 0 <= n -> a + n <= start \/ start + length <= a ->
         read_bytes data' a n = read_bytes data a n
         /\ forall o' signed', read_int o' signed' data' a n = read_int o' signed' data a n.
Proof.
  intros Hstart Hlen Hend Hv.
  apply representable_fits in Hv; [| exact Hlen].
  pose proof (to_bytes_fits v length o signed ltac:(lia) Hv) as Hbs.
  destruct (from_bytes_to_bytes _ _ _ _ _ Hbs) as [Hbl Hback].
  rewrite write_named_eq, (write_int_in_bounds _ _ _ _ _ _ _ Hstart Hend Hbs).
  set (bs := Py.in_order o (Py.le_bytes (Z.to_nat length) v)) in *.
  unfold buffer_len in *.
  eexists. split; [reflexivity |]. cbn [kind contents].
  assert (Hsame : List.length (Py.setslice (contents data) start
                                 (start + Z.of_nat (List.length bs)) bs)
                  = List.length (contents data))
    by (apply length_setslice_same; lia).
  split; [reflexivity |]. split; [now rewrite Hsame |]. split.
  - rewrite read_int_eq. unfold buffer_slice. cbn [contents].
    replace (start + length) with (start + Z.of_nat (List.length bs)) by lia.
    rewrite getslice_setslice by lia. now rewrite Hback.
  - intros a n Ha Hn Hout.
    assert (Hslice : buffer_slice
                       (mkBuffer (kind data)
                          (Py.setslice (contents data) start
                             (start + Z.of_nat (List.length bs)) bs)) a (a + n)
                     = buffer_slice data a (a + n)).
    { unfold buffer_slice. cbn [contents]. apply nth_error_ext. intros i.
      rewrite !nth_error_getslice by lia.
      destruct (Nat.ltb_spec i (Z.to_nat (a + n - a))); [| reflexivity].
      apply nth_error_setslice_outside; lia. }
    split.
    + unfold read_bytes. now rewrite Hslice.
    + intros o' signed'. rewrite !read_int_eq. now rewrite Hslice.
Qed.

Lemma write_in_bounds_witness :
  exists data',
    write_sintbe (mkBuffer Memoryview [x01; x02; x03; x04]) (-2) 1 2 = (Ok tt, data')
    /\ read_sintbe data' 1 2 = Ok (-2)
    /\ read_bytes data' 3 1 = read_bytes (mkBuffer Memoryview [x01; x02; x03; x04]) 3 1.
Proof.
  destruct (write_in_bounds Py.big true (mkBuffer Memoryview [x01; x02; x03; x04])
              (-2) 1 2) as (data' & Hw & _ & _ & Hr & Hframe);
    [lia | lia | cbn; lia | cbn; lia |].
  exists data'. split; [exact Hw |]. split; [exact Hr |].
  apply (Hframe 3 1); lia.
Defined.

(** X2. Writing back the integer that a read returned for an in-bounds range,
    with the write of the same byte order and signedness, succeeds and
    leaves the buffer exactly as it was. *)
Theorem write_back_what_was_read (o : Py.byteorder) (signed : bool) (data : buffer)
    (start length v : Z) :
  0 <= start -> 0 <= length -> start + length <= buffer_len data ->
  read_int o signed data start length = Ok v ->
  write_named o signed data v start length = (Ok tt, data).
Proof.
  intros Hstart Hlen Hend Hread. rewrite read_int_eq in Hread.
  injection Hread as <-. unfold buffer_len in Hend.
  set (bs := buffer_slice data start (start + length)).
  assert (Hbl : Z.of_nat (List.length bs) = length).
  { subst bs. unfold buffer_slice. rewrite length_getslice_le by lia. lia. }
  pose proof (to_bytes_from_bytes bs o signed) as Hbs. rewrite Hbl in Hbs.
  rewrite write_named_eq.
  rewrite (write_int_in_bounds _ _ _ _ _ _ _ Hstart Hend Hbs).
  rewrite Hbl. subst bs. unfold buffer_slice.
  rewrite setslice_getslice by lia. now destruct data.
Qed.

Lemma write_back_what_was_read_witness :
  write_sintle (mkBuffer Bytearray [x01; xff; x80]) (-32513) 1 2
  = (Ok tt, mkBuffer Bytearray [x01; xff; x80]).
Proof.
  apply (write_back_what_was_read Py.little true); [lia | lia | cbn; lia | reflexivity].
Defined.

Section ReadFacts.

Import Py.

Lemma le_value_app (a b : list byte) :
  le_value (a ++ b) = le_value a + 256 ^ Z.of_nat (List.length a) * le_value b.
Proof.
  induction a as [| x a IH]; cbn [app le_value List.length].
  - change (256 ^ Z.of_nat 0) with 1. lia.
  - rewrite IH, Nat2Z.inj_succ, Z.pow_succ_r by lia. ring.
Qed.

Lemma from_bytes_range (bs : list byte) (o : byteorder) (length : Z) :
  Z.of_nat (List.length bs) <= length ->
  0 <= int_from_bytes bs o false < 256 ^ length
  /\ - 256 ^ length <= 2 * int_from_bytes bs o true < 256 ^ length.
Proof.
  intros Hlen. unfold int_from_bytes.
  pose proof (le_value_range (in_order o bs)) as Hu.
  rewrite length_in_order in Hu.
  set (u := le_value (in_order o bs)) in *. set (n := Z.of_nat (List.length bs)) in *.
  assert (Hmono : 256 ^ n <= 256 ^ length) by (apply Z.pow_le_mono_r; lia).
  cbn [andb]. split; [lia |].
  destruct (Z.ltb_spec 0 (8 * n)) as [Hpos | Hzero]; cbn [andb].
  - pose proof (pow2_half n ltac:(lia)) as Hhalf. rewrite <- pow256 by lia.
    destruct (Z.leb_spec (2 ^ (8 * n - 1)) u); lia.
  - assert (Hn0 : n = 0) by lia. rewrite Hn0 in *. change (256 ^ 0) with 1 in *. lia.
Qed.

End ReadFacts.

(** X3. The integer reads stay in the range of their width, whatever the
    buffer holds and wherever the range lies: an unsigned read of [length]
    bytes returns [0 <= u < 256^length], a signed one
    [-256^length <= 2s < 256^length]. *)
Theorem read_within_width (o : Py.byteorder) (data : buffer) (start length : Z) :
  0 <= length ->
  exists u s,
    read_int o false data start length = Ok u
    /\ read_int o true data start length = Ok s
    /\ 0 <= u < 256 ^ length
    /\ - 256 ^ length <= 2 * s < 256 ^ length.
Proof.
  intros Hlen. rewrite !read_int_eq. do 2 eexists.
  split; [reflexivity |]. split; [reflexivity |].
  apply from_bytes_range. unfold buffer_slice.
  pose proof (length_getslice_bound (contents data) start (start + length)
                ltac:(lia)).
  lia.
Qed.

Lemma read_within_width_witness :
  exists u s,
    read_uintle (mkBuffer Bytearray [xff; xff]) 0 2 = Ok u
    /\ read_sintle (mkBuffer Bytearray [xff; xff]) 0 2 = Ok s
    /\ 0 <= u < 256 ^ 2
    /\ - 256 ^ 2 <= 2 * s < 256 ^ 2.
Proof.
  apply (read_within_width Py.little (mkBuffer Bytearray [xff; xff]) 0 2). lia.
Defined.

(** X4. An in-bounds unsigned read of [n + m] bytes is made of the reads of
    its first [n] and its last [m] bytes: little-endian, the first part is
    the low one, [lo + 256^n * hi]; big-endian, the first part is the high
    one, [hi * 256^m + lo]. *)
Theorem unsigned_read_splits (data : buffer) (start n m : Z) :
  0 <= start -> 0 <= n -> 0 <= m -> start + n + m <= buffer_len data ->
  (exists lo hi,
      read_uintle data start n = Ok lo
      /\ read_uintle data (start + n) m = Ok hi
      /\ read_uintle data start (n + m) = Ok (lo + 256 ^ n * hi))
  /\ (exists hi lo,
         read_uintbe data start n = Ok hi
         /\ read_uintbe data (start + n) m = Ok lo
         /\ read_uintbe data start (n + m) = Ok (hi * 256 ^ m + lo)).
Proof.
  intros Hstart Hn Hm Hend. unfold buffer_len in Hend.
  assert (Hsplit : buffer_slice data start (start + (n + m))
                   = buffer_slice data start (start + n)
                     ++ buffer_slice data (start + n) (start + n + m)).
  { unfold buffer_slice. rewrite getslice_app by lia. f_equal. lia. }
  assert (Hl1 : Z.of_nat (List.length (buffer_slice data start (start + n))) = n).
  { unfold buffer_slice. rewrite length_getslice_le by lia. lia. }
  assert (Hl2 : Z.of_nat (List.length (buffer_slice data (start + n) (start + n + m))) = m).
  { unfold buffer_slice. rewrite length_getslice_le by lia. lia. }
  unfold read_uintle, read_uintbe, Py.int_from_bytes. cbn [andb Py.in_order].
  rewrite Hsplit. split; do 2 eexists; (split; [reflexivity |]);
    (split; [reflexivity |]); f_equal.
  - rewrite le_value_app, Hl1. reflexivity.
  - rewrite rev_app_distr, le_value_app, length_rev, Hl2. lia.
Qed.

Lemma unsigned_read_splits_witness :
  read_uintle (mkBuffer Bytearray [x01; x02; x03]) 0 (1 + 2) = Ok (1 + 256 ^ 1 * 770)
  /\ read_uintbe (mkBuffer Bytearray [x01; x02; x03]) 0 (1 + 2) = Ok (1 * 256 ^ 2 + 515).
Proof.
  destruct (unsigned_read_splits (mkBuffer Bytearray [x01; x02; x03]) 0 1 2)
    as [(lo & hi & Hlo & Hhi & Hle) (hi' & lo' & Hhi' & Hlo' & Hbe)];
    [lia | lia | lia | cbn; lia |].
  injection Hlo as <-. injection Hhi as <-. injection Hhi' as <-. injection Hlo' as <-.
  split; [exact Hle | exact Hbe].
Defined.



(** X6. A negative [start] counts from the end of the buffer: for
    [0 < k <= len], a read of fewer than [k] bytes at [-k] is the read at
    [len - k]. But a range that comes to index 0 wraps: a read of [length]
    bytes at [-k] with [k <= length <= len] finds no byte at all, so that
    [read_bytes(data, -1, 1)] is empty and the integer reads there
    return 0. *)
Theorem negative_start (data : buffer) (k length : Z) :
  0 < k <= buffer_len data -> 0 <= length ->
  (length < k ->
   read_bytes data (- k) length = read_bytes data (buffer_len data - k) length
   /\ forall o signed,
        read_int o signed data (- k) length
        = read_int o signed data (buffer_len data - k) length)
  /\ (k <= length <= buffer_len data ->
      read_bytes data (- k) length = Ok []
      /\ forall o signed, read_int o signed data (- k) length = Ok 0).
Proof.
  intros Hk Hlen. unfold buffer_len in *. split.
  - intros Hshort.
    assert (Hsame : buffer_slice data (- k) (- k + length)
                    = buffer_slice data (Z.of_nat (List.length (contents data)) - k)
                        (Z.of_nat (List.length (contents data)) - k + length)).
    { unfold buffer_slice, Py.getslice, Py.clip.
      destruct (Z.ltb_spec (- k) 0); [| lia].
      destruct (Z.ltb_spec (- k + length) 0); [| lia].
      destruct (Z.ltb_spec (Z.of_nat (List.length (contents data)) - k) 0); [lia |].
      destruct (Z.ltb_spec (Z.of_nat (List.length (contents data)) - k + length) 0);
        [lia |].
      f_equal; [f_equal; lia | f_equal; lia]. }
    split.
    + unfold read_bytes. now rewrite Hsame.
    + intros o signed. rewrite !read_int_eq. now rewrite Hsame.
  - intros Hwrap.
    assert (Hempty : buffer_slice data (- k) (- k + length) = []).
    { unfold buffer_slice, Py.getslice, Py.clip.
      destruct (Z.ltb_spec (- k) 0); [| lia].
      destruct (Z.ltb_spec (- k + length) 0); [lia |].
      replace (Z.to_nat _) with 0%nat by lia. reflexivity. }
    split.
    + unfold read_bytes. now rewrite Hempty.
    + intros o signed. rewrite read_int_eq, Hempty. now destruct o, signed.
Qed.

Lemma negative_start_witness :
  read_bytes (mkBuffer Bytearray [x01; x02; x03]) (-2) 1
  = read_bytes (mkBuffer Bytearray [x01; x02; x03]) (3 - 2) 1
  /\ read_uintle (mkBuffer Bytearray [x01; x02; x03]) (-1) 1 = Ok 0.
Proof.
  split.
  - apply (negative_start (mkBuffer Bytearray [x01; x02; x03]) 2 1);
      [cbn; lia | lia | lia].
  - exact (proj2 (proj2 (negative_start (mkBuffer Bytearray [x01; x02; x03]) 1 1
                           ltac:(cbn; lia) ltac:(lia)) ltac:(cbn; lia))
             Py.little false).
Defined.

(** ** The iterators *)

Section BitFacts.

Lemma land_low_byte (number bit : Z) :
  0 <= bit < 256 -> Z.land number bit = Z.land (number mod 256) bit.
Proof.
  intros Hbit. change 256 with (2 ^ 8).
  rewrite <- (Z.land_ones number 8) by lia.
  rewrite <- Z.land_assoc. f_equal.
  rewrite Z.land_comm, Z.land_ones by lia.
  symmetry. apply Z.mod_small. exact Hbit.
Qed.

Lemma iter_bits_low_byte (number : Z) : iter_bits number = iter_bits (number mod 256).
Proof.
  unfold iter_bits. cbn -[Z.land Z.modulo].
  rewrite (land_low_byte number 128), (land_low_byte number 64),
    (land_low_byte number 32), (land_low_byte number 16),
    (land_low_byte number 8), (land_low_byte number 4),
    (land_low_byte number 2), (land_low_byte number 1) by lia.
  reflexivity.
Qed.

(** The 256 bytes, one by one. *)
Lemma iter_bits_of_byte (m : Z) :
  0 <= m < 256 ->
  iter_bits m = map (fun k => Z.b2z (Z.testbit m k)) [7; 6; 5; 4; 3; 2; 1; 0]
  /\ fold_left (fun acc bit => 2 * acc + bit) (iter_bits m) 0 = m.
Proof.
  intros Hm.
  assert (Hall : forallb
                   (fun m => list_eqb (iter_bits m)
                               (map (fun k => Z.b2z (Z.testbit m k))
                                    [7; 6; 5; 4; 3; 2; 1; 0])
                             && (fold_left (fun acc bit => 2 * acc + bit)
                                   (iter_bits m) 0 =? m))
                   (map Z.of_nat (seq 0 256)) = true)
    by (vm_compute; reflexivity).
  rewrite forallb_forall in Hall.
  assert (Hin : In m (map Z.of_nat (seq 0 256))).
  { apply in_map_iff. exists (Z.to_nat m). split; [lia | apply in_seq; lia]. }
  apply Hall in Hin. apply andb_true_iff in Hin. destruct Hin as [H1 H2].
  split; [now apply list_eqb_eq | now apply Z.eqb_eq].
Qed.

End BitFacts.

(** X7. [iter_bits(number)] yields eight values, each 0 or 1: bit 7 of
    [number] first, bit 0 last (of the two's complement for a negative
    number). Read as a binary numeral they are [number mod 256]: the bits
    above bit 7 play no part. The loop ends by its own test, after eight
    turns. *)
Theorem iter_bits_spec (number : Z) :
  iter_bits number
  = map (fun k => Z.b2z (Z.testbit number k)) [7; 6; 5; 4; 3; 2; 1; 0]
  /\ fold_left (fun acc bit => 2 * acc + bit) (iter_bits number) 0 = number mod 256
  /\ (forall fuel, (9 <= fuel)%nat -> iter_bits_loop fuel number 128 = iter_bits number).
Proof.
  pose proof (Z.mod_pos_bound number 256 ltac:(lia)) as Hm.
  destruct (iter_bits_of_byte (number mod 256) Hm) as [Hbits Hvalue].
  split; [| split].
  - rewrite iter_bits_low_byte, Hbits. apply map_ext_in. intros k Hk.
    f_equal. change 256 with (2 ^ 8). apply Z.mod_pow2_bits_low.
    cbn in Hk. lia.
  - now rewrite iter_bits_low_byte.
  - intros fuel Hfuel.
    do 9 (destruct fuel as [| fuel]; [lia |]).
    unfold iter_bits. cbn -[Z.land]. reflexivity.
Qed.

Section RangeFacts.

Lemma range_positive_step (start stop step : Z) :
  0 < step ->
  range start stop step
  = Ok (map (fun j => start + Z.of_nat j * step)
            (seq 0 (Z.to_nat (range_len start stop step)))).
Proof.
  intros Hstep. unfold range. destruct (Z.eqb_spec step 0); [lia | reflexivity].
Qed.

(** The number of indices that a positive step visits. *)
Lemma range_len_ceil (start stop step : Z) :
  0 < step -> start < stop ->
  range_len start stop step = (stop - start + step - 1) / step
  /\ stop <= start + range_len start stop step * step < stop + step.
Proof.
  intros Hstep Hlt. unfold range_len.
  destruct (Z.ltb_spec 0 step); [| lia].
  destruct (Z.ltb_spec start stop); [| lia].
  pose proof (Z.mul_div_le (stop - start - 1) step Hstep).
  pose proof (Z.mul_succ_div_gt (stop - start - 1) step Hstep).
  split; [| nia].
  replace (stop - start + step - 1) with (stop - start - 1 + 1 * step) by ring.
  now rewrite Z.div_add by lia.
Qed.

Lemma range_len_empty (start stop step : Z) :
  0 < step -> stop <= start -> range_len start stop step = 0.
Proof.
  intros Hstep Hle. unfold range_len.
  destruct (Z.ltb_spec 0 step); [| lia].
  destruct (Z.ltb_spec start stop); [lia | reflexivity].
Qed.

(** The indices of the palette loop are those of [range(0, n, 3)]. *)
Lemma range3_is_range (n : nat) : range 0 (Z.of_nat n) 3 = Ok (range3 n).
Proof.
  rewrite range_positive_step by lia. unfold range3. f_equal.
  replace (Z.to_nat (range_len 0 (Z.of_nat n) 3)) with ((n + 2) / 3)%nat.
  - apply map_ext. intros k. lia.
  - unfold range_len. cbn [Z.ltb Z.compare].
    destruct (Z.ltb_spec 0 (Z.of_nat n)); lia.
Qed.

Lemma concat_slices {A : Type} (l : list A) (start step : Z) (n : nat) :
  0 <= start -> 0 <= step ->
  List.concat (map (fun j => Py.getslice l (start + Z.of_nat j * step)
                               (start + Z.of_nat j * step + step)) (seq 0 n))
  = Py.getslice l start (start + Z.of_nat n * step).
Proof.
  intros Hstart Hstep. induction n as [| n IH].
  - cbn. symmetry. apply getslice_empty; lia.
  - rewrite seq_S, map_app, concat_app, IH. cbn [map List.concat Nat.add].
    rewrite app_nil_r. rewrite getslice_app by nia. f_equal. lia.
Qed.

Lemma iter_bytes_steps (data : buffer) (slice_size start : Z) (end_ : option Z) :
  0 < slice_size ->
  iter_bytes data slice_size start end_
  = mkGenerated
      (map (fun j => buffer_slice data (start + Z.of_nat j * slice_size)
                       (start + Z.of_nat j * slice_size + slice_size))
           (seq 0 (Z.to_nat (range_len start
                               (match end_ with
                                | None => buffer_len data
                                | Some e => e
                                end) slice_size))))
      None.
Proof.
  intros Hstep. unfold iter_bytes. rewrite range_positive_step by exact Hstep.
  now rewrite map_map.
Qed.

End RangeFacts.

(** X8. With a positive [slice_size] and the default [end], [iter_bytes]
    from a [start] inside the buffer raises nothing and cuts [data[start:]]
    into slices: put end to end they are the bytes from [start] on; there
    are [ceil((len - start) / slice_size)] of them; each has [slice_size]
    bytes but the last, which has the bytes that remain, and none is
    empty. *)
Theorem iter_bytes_cuts_the_rest (data : buffer) (slice_size start : Z) :
  0 < slice_size -> 0 <= start <= buffer_len data ->
  let g := iter_bytes data slice_size start None in
  raised g = None
  /\ List.concat (yielded g) = skipn (Z.to_nat start) (contents data)
  /\ Z.of_nat (List.length (yielded g))
     = (buffer_len data - start + slice_size - 1) / slice_size
  /\ forall j chunk,
       nth_error (yielded g) j = Some chunk ->
       read_bytes data (start + Z.of_nat j * slice_size) slice_size = Ok chunk
       /\ Z.of_nat (List.length chunk)
          = Z.min slice_size (buffer_len data - start - Z.of_nat j * slice_size)
       /\ 0 < Z.of_nat (List.length chunk).
Proof.
  intros Hstep Hstart g. subst g.
  rewrite iter_bytes_steps by exact Hstep. cbn [raised yielded].
  set (n := Z.to_nat (range_len start (buffer_len data) slice_size)).
  assert (Hn : Z.of_nat n = (buffer_len data - start + slice_size - 1) / slice_size
               /\ buffer_len data <= start + Z.of_nat n * slice_size).
  { subst n. destruct (Z.lt_ge_cases start (buffer_len data)) as [Hlt | Hge].
    - destruct (range_len_ceil start (buffer_len data) slice_size Hstep Hlt)
        as [Hceil Hcover].
      rewrite Z2Nat.id by nia. split; [exact Hceil | lia].
    - rewrite range_len_empty by lia. cbn [Z.to_nat Z.of_nat].
      replace (buffer_len data - start + slice_size - 1) with (slice_size - 1) by lia.
      rewrite Z.div_small by lia. lia. }
  destruct Hn as [Hceil Hcover]. unfold buffer_len in *.
  split; [reflexivity |]. split; [| split].
  - unfold buffer_slice. rewrite concat_slices by lia.
    apply getslice_past_end; nia.
  - now rewrite length_map, length_seq.
  - intros j chunk Hj. rewrite nth_error_map, nth_error_seq in Hj.
    destruct (Nat.ltb_spec j n) as [Hlt | Hge]; [| discriminate].
    cbn [option_map Nat.add] in Hj. injection Hj as <-.
    assert (Hinside : start + Z.of_nat j * slice_size
                      < Z.of_nat (List.length (contents data))).
    { destruct (Z.lt_ge_cases start (Z.of_nat (List.length (contents data))))
        as [Hs | Hs].
      - destruct (range_len_ceil start _ slice_size Hstep Hs) as [_ Hc].
        subst n. unfold buffer_len in *. nia.
      - subst n. unfold buffer_len in *. rewrite range_len_empty in Hlt by lia.
        cbn in Hlt. lia. }
    split; [reflexivity |].
    unfold buffer_slice. rewrite length_getslice_le by nia. lia.
Qed.

Lemma iter_bytes_cuts_the_rest_witness :
  yielded (iter_bytes (mkBuffer Bytearray [x00; x01; x02; x03; x04]) 2 1 None)
  = [[x01; x02]; [x03; x04]]
  /\ List.concat (yielded (iter_bytes (mkBuffer Bytearray [x00; x01; x02; x03; x04]) 2 1 None))
     = skipn 1 [x00; x01; x02; x03; x04].
Proof.
  split; [reflexivity |].
  apply (iter_bytes_cuts_the_rest (mkBuffer Bytearray [x00; x01; x02; x03; x04]) 2 1);
    [lia | cbn; lia].
Defined.

(** X9. With an explicit [end] the last slice is not cut at [end]: for a
    positive [slice_size] and [0 <= start < end], [iter_bytes] yields
    [n = ceil((end - start) / slice_size)] slices, the [j]-th being
    [data[start + j * slice_size : start + (j + 1) * slice_size]], and put
    end to end they are [data[start : start + n * slice_size]], a range that
    reaches up to [slice_size - 1] bytes past [end] when [end - start] is no
    multiple of [slice_size]. *)
Theorem iter_bytes_last_slice_not_cut (data : buffer) (slice_size start end_ : Z) :
  0 < slice_size -> 0 <= start < end_ ->
  let g := iter_bytes data slice_size start (Some end_) in
  let n := (end_ - start + slice_size - 1) / slice_size in
  raised g = None
  /\ Z.of_nat (List.length (yielded g)) = n
  /\ (forall j, (j < List.length (yielded g))%nat ->
        nth_error (yielded g) j
        = Some (buffer_slice data (start + Z.of_nat j * slice_size)
                  (start + Z.of_nat j * slice_size + slice_size)))
  /\ List.concat (yielded g) = buffer_slice data start (start + n * slice_size)
  /\ end_ <= start + n * slice_size < end_ + slice_size.
Proof.
  intros Hstep Hstart g n. subst g n.
  rewrite iter_bytes_steps by exact Hstep. cbn [raised yielded].
  destruct (range_len_ceil start end_ slice_size Hstep ltac:(lia)) as [Hceil Hcover].
  rewrite <- Hceil.
  assert (Hpos : 0 <= range_len start end_ slice_size) by nia.
  split; [reflexivity |]. split; [| split; [| split]].
  - rewrite length_map, length_seq. lia.
  - intros j Hj. rewrite length_map, length_seq in Hj.
    rewrite nth_error_map, nth_error_seq.
    destruct (Nat.ltb_spec j (Z.to_nat (range_len start end_ slice_size))); [| lia].
    reflexivity.
  - unfold buffer_slice. rewrite concat_slices by lia.
    now rewrite Z2Nat.id by lia.
  - exact Hcover.
Qed.

Lemma iter_bytes_last_slice_not_cut_witness :
  let data := mkBuffer Bytearray [x00; x01; x02; x03; x04; x05; x06] in
  yielded (iter_bytes data 3 0 (Some 4)) = [[x00; x01; x02]; [x03; x04; x05]]
  /\ List.concat (yielded (iter_bytes data 3 0 (Some 4)))
     = buffer_slice data 0 (0 + (4 - 0 + 3 - 1) / 3 * 3).
Proof.
  intros data. split; [reflexivity |].
  apply (iter_bytes_last_slice_not_cut data 3 0 4); lia.
Defined.

(** X10. [iter_bytes] with a [slice_size] of 0 raises [ValueError] before it
    yields anything; with a positive [slice_size] and an [end] that is not
    after [start] it yields nothing and raises nothing. *)
Theorem iter_bytes_nothing (data : buffer) (start : Z) (end_ : option Z) :
  iter_bytes data 0 start end_ = mkGenerated [] (Some ValueError)
  /\ forall slice_size,
       0 < slice_size ->
       match end_ with None => buffer_len data | Some e => e end <= start ->
       iter_bytes data slice_size start end_ = mkGenerated [] None.
Proof.
  split; [reflexivity |].
  intros slice_size Hstep Hend. rewrite iter_bytes_steps by exact Hstep.
  now rewrite range_len_empty by lia.
Qed.

Section NibbleFacts.

Lemma nibbles_of_byte (b : byte) :
  let v := Py.byte_value b in
  Z.land v 15 + 16 * Z.shiftr v 4 = v
  /\ 0 <= Z.land v 15 < 16 /\ 0 <= Z.shiftr v 4 < 16.
Proof.
  intros v. pose proof (byte_value_range b) as Hb. fold v in Hb.
  change 15 with (Z.ones 4). rewrite Z.land_ones, Z.shiftr_div_pow2 by lia.
  change (2 ^ 4) with 16. lia.
Qed.

Lemma map_seq_from {B : Type} (f : nat -> B) (a n : nat) :
  map f (seq a n) = map (fun j => f (a + j)%nat) (seq 0 n).
Proof.
  revert f a. induction n as [| n IH]; intros f a; [reflexivity |].
  cbn [seq map]. rewrite Nat.add_0_r. f_equal.
  rewrite (IH f (S a)), (IH (fun j => f (a + j)%nat) 1%nat).
  apply map_ext. intros j. f_equal. lia.
Qed.

(** The slices of one byte from the index [a] on. *)
Lemma for_byte_single_bytes (l : list byte) (a n : nat) :
  for_byte (map (fun j => Py.getslice l (Z.of_nat j) (Z.of_nat j + 1)) (seq a n))
  = mkGenerated
      (flat_map (fun b => [Z.land (Py.byte_value b) 15; Z.shiftr (Py.byte_value b) 4])
                (firstn n (skipn a l)))
      (if (n =? 0)%nat || (a + n <=? List.length l)%nat then None else Some IndexError).
Proof.
  revert a. induction n as [| n IH]; intros a; [reflexivity |].
  cbn [seq map for_byte Nat.eqb orb].
  rewrite getslice_nonneg by lia.
  replace (Z.to_nat (Z.of_nat a + 1 - Z.of_nat a)) with 1%nat by lia.
  rewrite Nat2Z.id.
  destruct (skipn a l) as [| b rest] eqn:Hskip.
  - cbn [firstn nth_error flat_map].
    assert (List.length l <= a)%nat.
    { apply (f_equal (@List.length byte)) in Hskip.
      rewrite length_skipn in Hskip. cbn in Hskip. lia. }
    destruct (Nat.leb_spec (a + S n) (List.length l)); [lia | reflexivity].
  - cbn [firstn nth_error flat_map app].
    rewrite IH.
    assert (Hrest : skipn (S a) l = rest).
    { replace (S a) with (1 + a)%nat by lia.
      rewrite <- skipn_skipn, Hskip. reflexivity. }
    assert (Hlen : (a < List.length l)%nat).
    { apply (f_equal (@List.length byte)) in Hskip.
      rewrite length_skipn in Hskip. cbn in Hskip. lia. }
    rewrite Hrest. cbn [yielded raised]. f_equal.
    destruct n as [| n]; cbn [Nat.eqb orb].
    + destruct (Nat.leb_spec (a + 1) (List.length l)); [reflexivity | lia].
    + destruct (Nat.leb_spec (S a + S n) (List.length l));
        destruct (Nat.leb_spec (a + S (S n)) (List.length l));
        try reflexivity; lia.
Qed.

Lemma from_nibbles_of_bytes (bs : list byte) :
  from_nibbles
    (flat_map (fun b => [Z.land (Py.byte_value b) 15; Z.shiftr (Py.byte_value b) 4]) bs)
  = map Py.byte_value bs.
Proof.
  induction bs as [| b bs IH]; [reflexivity |].
  cbn [flat_map app from_nibbles map]. rewrite IH. f_equal.
  apply nibbles_of_byte.
Qed.

Lemma iter_bytes_4bit_le_steps (data : buffer) (start stop : Z) (end_ : option Z) :
  0 <= start ->
  stop = match end_ with None => buffer_len data | Some e => e end ->
  iter_bytes_4bit_le data start end_
  = mkGenerated
      (flat_map (fun b => [Z.land (Py.byte_value b) 15; Z.shiftr (Py.byte_value b) 4])
                (firstn (Z.to_nat (stop - start))
                        (skipn (Z.to_nat start) (contents data))))
      (if stop <=? buffer_len data then None
       else if stop <=? start then None else Some IndexError).
Proof.
  intros Hstart Hstop. unfold iter_bytes_4bit_le.
  rewrite iter_bytes_steps by lia. cbn [raised yielded]. rewrite <- Hstop.
  assert (Hlen : Z.to_nat (range_len start stop 1) = Z.to_nat (stop - start)).
  { unfold range_len. cbn [Z.ltb Z.compare].
    destruct (Z.ltb_spec start stop); [| lia].
    rewrite Z.div_1_r. lia. }
  rewrite Hlen.
  replace (map (fun j => buffer_slice data (start + Z.of_nat j * 1)
                           (start + Z.of_nat j * 1 + 1))
               (seq 0 (Z.to_nat (stop - start))))
    with (map (fun j => Py.getslice (contents data) (Z.of_nat j) (Z.of_nat j + 1))
              (seq (Z.to_nat start) (Z.to_nat (stop - start)))).
  - rewrite for_byte_single_bytes. f_equal. unfold buffer_len.
    destruct (Z.leb_spec stop (Z.of_nat (List.length (contents data))));
      destruct (Z.leb_spec stop start);
      destruct (Nat.eqb_spec (Z.to_nat (stop - start)) 0);
      destruct (Nat.leb_spec (Z.to_nat start + Z.to_nat (stop - start))
                  (List.length (contents data)));
      cbn [orb]; try reflexivity; lia.
  - rewrite map_seq_from. apply map_ext. intros j. unfold buffer_slice.
    f_equal; lia.
Qed.

End NibbleFacts.
(** X11. For [0 <= start <= end <= len] ([end] given, or left to its
    default [len]) [iter_bytes_4bit_le] raises nothing and yields two values
    for each byte of [data[start:end]], [2 * (end - start)] in all, each in
    0 .. 15: the low nibble, then the high one. Taken two by two,
    [low + 16 * high] gives the bytes back. *)
Theorem nibbles_of_range (data : buffer) (start stop : Z) (end_ : option Z) :
  stop = match end_ with None => buffer_len data | Some e => e end ->
  0 <= start <= stop -> stop <= buffer_len data ->
  let g := iter_bytes_4bit_le data start end_ in
  raised g = None
  /\ Z.of_nat (List.length (yielded g)) = 2 * (stop - start)
  /\ Forall (fun nibble => 0 <= nibble < 16) (yielded g)
  /\ from_nibbles (yielded g) = map Py.byte_value (buffer_slice data start stop).
Proof.
  intros Hstop Hstart Hend g. subst g.
  rewrite (iter_bytes_4bit_le_steps data start stop end_) by (lia || exact Hstop).
  cbn [raised yielded].
  destruct (Z.leb_spec stop (buffer_len data)); [| lia].
  unfold buffer_slice. rewrite getslice_nonneg by lia.
  set (bs := firstn (Z.to_nat (stop - start)) (skipn (Z.to_nat start) (contents data))).
  assert (Hbs : Z.of_nat (List.length bs) = stop - start).
  { subst bs. unfold buffer_len in *. rewrite length_firstn, length_skipn. lia. }
  split; [reflexivity |]. split; [| split].
  - rewrite <- Hbs. clear Hbs. induction bs as [| b bs IH]; [reflexivity |].
    cbn [flat_map app List.length]. lia.
  - clear Hbs. induction bs as [| b bs IH]; [constructor |].
    cbn [flat_map app]. pose proof (nibbles_of_byte b) as [_ [Hlo Hhi]].
    repeat constructor; try lia. exact IH.
  - apply from_nibbles_of_bytes.
Qed.

Lemma nibbles_of_range_witness :
  let g := iter_bytes_4bit_le (mkBuffer Bytearray [x21; xf0; x07]) 0 (Some 2) in
  yielded g = [1; 2; 0; 15]
  /\ from_nibbles (yielded g)
     = map Py.byte_value (buffer_slice (mkBuffer Bytearray [x21; xf0; x07]) 0 2).
Proof.
  intros g. split; [reflexivity |].
  apply (nibbles_of_range (mkBuffer Bytearray [x21; xf0; x07]) 0 2 (Some 2));
    [reflexivity | lia | cbn; lia].
Defined.

(** X12. With an [end] after the last byte of the buffer (and after
    [start]), [iter_bytes_4bit_le] yields the nibbles of the bytes from
    [start] to the end of the buffer, for each byte the low one and then the
    high one, [2 * (len - start)] values in 0 .. 15 that give these bytes
    back, none at all when [start] is at the end or past it, and then raises
    [IndexError]. *)
Theorem nibbles_past_the_end (data : buffer) (start end_ : Z) :
  0 <= start < end_ -> buffer_len data < end_ ->
  let g := iter_bytes_4bit_le data start (Some end_) in
  raised g = Some IndexError
  /\ yielded g
     = flat_map (fun b => [Z.land (Py.byte_value b) 15; Z.shiftr (Py.byte_value b) 4])
                (skipn (Z.to_nat start) (contents data))
  /\ Z.of_nat (List.length (yielded g)) = 2 * Z.max 0 (buffer_len data - start)
  /\ Forall (fun nibble => 0 <= nibble < 16) (yielded g)
  /\ from_nibbles (yielded g)
     = map Py.byte_value (skipn (Z.to_nat start) (contents data))
  /\ (buffer_len data <= start -> yielded g = []).
Proof.
  intros Hstart Hend g. subst g.
  rewrite (iter_bytes_4bit_le_steps data start end_ (Some end_)) by (lia || reflexivity).
  cbn [raised yielded].
  destruct (Z.leb_spec end_ (buffer_len data)); [lia |].
  destruct (Z.leb_spec end_ start); [lia |].
  unfold buffer_len in *.
  assert (Hall : firstn (Z.to_nat (end_ - start)) (skipn (Z.to_nat start) (contents data))
                 = skipn (Z.to_nat start) (contents data))
    by (apply firstn_all2; rewrite length_skipn; lia).
  rewrite Hall.
  set (bs := skipn (Z.to_nat start) (contents data)).
  assert (Hbs : Z.of_nat (List.length bs)
                = Z.max 0 (Z.of_nat (List.length (contents data)) - start)).
  { subst bs. rewrite length_skipn. lia. }
  split; [reflexivity |]. split; [reflexivity |]. split; [| split; [| split]].
  - rewrite <- Hbs. clear Hbs Hall. induction bs as [| b bs IH]; [reflexivity |].
    cbn [flat_map app List.length]. lia.
  - clear Hbs Hall. induction bs as [| b bs IH]; [constructor |].
    cbn [flat_map app]. pose proof (nibbles_of_byte b) as [_ [Hlo Hhi]].
    repeat constructor; try lia. exact IH.
  - apply from_nibbles_of_bytes.
  - intros Hpast. assert (Hnil : bs = []).
    { apply length_zero_iff_nil. lia. }
    now rewrite Hnil.
Qed.

Lemma nibbles_past_the_end_witness :
  let g := iter_bytes_4bit_le (mkBuffer Bytearray [x21; xf0]) 1 (Some 5) in
  raised g = Some IndexError
  /\ yielded g
     = flat_map (fun b => [Z.land (Py.byte_value b) 15; Z.shiftr (Py.byte_value b) 4])
                (skipn (Z.to_nat 1) [x21; xf0])
  /\ yielded g = [0; 15].
Proof.
  intros g.
  destruct (nibbles_past_the_end (mkBuffer Bytearray [x21; xf0]) 1 5
              ltac:(lia) ltac:(cbn; lia)) as (Hraised & Hyielded & _).
  split; [exact Hraised |]. split; [exact Hyielded | reflexivity].
Defined.

(** ** More on the file scanner *)

Section ScannerFacts.

Local Open Scope string_scope.

Lemma append_empty_r (s : string) : s ++ "" = s.
Proof. induction s as [| c s IH]; cbn; [reflexivity | now rewrite IH]. Qed.

Lemma path_of_append (dirs : list string) (stem suffix : string) :
  path_of dirs (stem ++ suffix) = path_of dirs stem ++ suffix.
Proof.
  induction dirs as [| d dirs IH]; [reflexivity |].
  rewrite !path_of_cons, IH. now rewrite !append_assoc.
Qed.

End ScannerFacts.

(** X13. Every path that [get_files_from_rom_with_extension(rom, ext)]
    returns ends with ['.' + ext]. *)
Theorem found_paths_end_with_extension (rom : NintendoDSRom) (ext p : string) :
  In p (get_files_from_rom_with_extension rom ext) ->
  endswith p ("." ++ ext)%string = true.
Proof.
  unfold get_files_from_rom_with_extension. intros Hin.
  apply recursion_complete in Hin. destruct Hin as (dirs & x & _ & Hext & ->).
  apply endswith_spec in Hext. destruct Hext as [stem ->].
  apply endswith_spec. exists (path_of dirs stem). apply path_of_append.
Qed.

Lemma found_paths_end_with_extension_witness :
  endswith "sub/c.txt" ".txt" = true.
Proof.
  apply (found_paths_end_with_extension
           (mkRom (mkFolder ["a.txt"; "b.bin"]%string
                            [("sub"%string, mkFolder ["c.txt"%string] [])]))
           "txt" "sub/c.txt").
  right. left. reflexivity.
Defined.

(** X14. Scanning a rom is scanning its root folder, then each subfolder as
    a rom of its own: the result is the matching file names of the root, in
    order, followed for each subfolder, in order, by the paths found in it,
    each behind the subfolder's name and a slash. *)
Theorem scan_by_subfolder (fs : list string) (subs : list (string * Folder)) (ext : string) :
  get_files_from_rom_with_extension (mkRom (mkFolder fs subs)) ext
  = filter (fun x => endswith x ("." ++ ext)%string) fs
    ++ flat_map
         (fun s => map (fun p => (fst s ++ "/" ++ p)%string)
                       (get_files_from_rom_with_extension (mkRom (snd s)) ext))
         subs.
Proof.
  unfold get_files_from_rom_with_extension. cbn [filenames].
  rewrite recursion_unfold. f_equal.
  - rewrite <- (map_id (filter _ fs)) at 2. apply map_ext. reflexivity.
  - induction subs as [| [name sub] subs IH]; [reflexivity |].
    cbn [flat_map fst snd]. rewrite IH. f_equal.
    rewrite recursion_prefix. apply map_ext. intros p.
    cbn [String.append]. now rewrite append_assoc.
Qed.

(** ** More on lcm *)

(** X15. Whenever [lcm(x, y)] returns, its result is a common multiple of
    [x] and [y] that divides every common multiple, its absolute value is
    the least common multiple of [x] and [y], and its sign is that of
    [x * y]; and [lcm(x, y)] is [lcm(y, x)], error included. *)
Theorem lcm_is_least_common_multiple (x y q : Z) :
  lcm x y = Ok q ->
  (x | q) /\ (y | q)
  /\ (forall m, (x | m) -> (y | m) -> (q | m))
  /\ Z.abs q = Z.lcm x y
  /\ (0 <= q <-> 0 <= x * y)
  /\ lcm y x = Ok q.
Proof.
  unfold lcm, floordiv, gcd.
  destruct (Z.eqb_spec (Z.gcd x y) 0) as [| Hg]; [discriminate |].
  intros [= <-].
  assert (Hq : x * y / Z.gcd x y = x * (y / Z.gcd x y)).
  { apply Z.divide_div_mul_exact; [exact Hg | apply Z.gcd_divide_r]. }
  assert (Habs : Z.abs (x * y / Z.gcd x y) = Z.lcm x y)
    by (rewrite Hq; reflexivity).
  assert (Hgpos : 0 < Z.gcd x y) by (pose proof (Z.gcd_nonneg x y); lia).
  split; [| split; [| split; [| split; [| split]]]].
  - apply Z.divide_abs_r. rewrite Habs. apply Z.divide_lcm_l.
  - apply Z.divide_abs_r. rewrite Habs. apply Z.divide_lcm_r.
  - intros m Hx Hy. apply Z.divide_abs_l. rewrite Habs. now apply Z.lcm_least.
  - exact Habs.
  - split; intros H.
    + pose proof (Z.mul_div_le (x * y) (Z.gcd x y) Hgpos). nia.
    + apply Z.div_pos; lia.
  - rewrite (Z.gcd_comm y x), (Z.mul_comm y x).
    destruct (Z.eqb_spec (Z.gcd x y) 0); [lia | reflexivity].
Qed.

Lemma lcm_is_least_common_multiple_witness :
  (-4 | -12) /\ (6 | -12)
  /\ (forall m, (-4 | m) -> (6 | m) -> (-12 | m))
  /\ Z.abs (-12) = Z.lcm (-4) 6
  /\ (0 <= -12 <-> 0 <= -4 * 6)
  /\ lcm 6 (-4) = Ok (-12).
Proof. apply (lcm_is_least_common_multiple (-4) 6 (-12)). reflexivity. Defined.

(** ** More on the palette de-duplicator *)

Section PaletteFacts.

Lemma clamp_id (x : Z) : 0 <= x <= 255 -> clamp x = x.
Proof.
  intros H. unfold clamp. destruct (Z.ltb_spec x 0); [lia |].
  destruct (Z.gtb_spec x 255); lia.
Qed.

Lemma new_color_of_range (color : list Z) (cn ca : Z) (nc : list Z) :
  new_color_of color cn ca = Ok nc -> Forall (fun x => 0 <= x <= 255) nc.
Proof.
  unfold new_color_of, getitem, bind.
  destruct color as [| c0 [| c1 [| c2 rest]]]; cbn; try discriminate.
  intros [= <-]. apply Forall_forall. intros x Hx.
  apply in_map_iff in Hx. destruct Hx as [y [<- _]]. apply clamp_range.
Qed.

Lemma check_result_range (fuel : nat) (color : list Z) (seen : list (list Z))
    (cn ca : Z) (r : list Z) :
  _mpcu__check fuel color seen cn ca = Some (Ok r) ->
  r = color \/ Forall (fun x => 0 <= x <= 255) r.
Proof.
  revert color cn ca. induction fuel as [| fuel IH]; intros color cn ca;
    cbn [_mpcu__check]; [discriminate |].
  destruct (color_in color seen); cbn [negb].
  - destruct (new_color_of color cn ca) as [nc | e] eqn:Hnc; [| discriminate].
    intros Hr. apply IH in Hr. right.
    destruct Hr as [-> | Hr]; [| exact Hr].
    exact (new_color_of_range _ _ _ _ Hnc).
  - intros [= <-]. now left.
Qed.

Lemma collect_related (fuel : nat) (colors : list (list Z)) (seen : list (list Z))
    (out_p : list Z) (seen' : list (list Z)) (out_p' : list Z) :
  collect fuel colors seen out_p = Some (Ok (seen', out_p')) ->
  Forall (fun c => (List.length c <= 3)%nat) colors ->
  exists news,
    out_p' = out_p ++ List.concat news /\ Forall2 kept_or_clamped colors news.
Proof.
  revert seen out_p. induction colors as [| c colors IH]; intros seen out_p.
  - intros [= <- <-] _. exists []. cbn. rewrite app_nil_r. auto.
  - cbn [collect].
    destruct (_mpcu__check fuel c seen 0 1) as [[nc | e] |] eqn:Hcheck;
      try discriminate.
    intros Hrest Hshort. inversion Hshort as [| ? ? Hc Hshort']; subst.
    destruct (IH _ _ Hrest Hshort') as (news & -> & Hrel).
    exists (nc :: news). rewrite <- app_assoc. split; [reflexivity |].
    constructor; [| exact Hrel]. split.
    + apply check_result in Hcheck. destruct Hcheck as [_ [-> | [H3 Hc3]]]; lia.
    + now apply check_result_range in Hcheck.
Qed.

Lemma for_palette_related (fuel : nat) (inp : list (list Z)) (seen : list (list Z))
    (out out' : list (list Z)) :
  for_palette fuel inp seen out = Some (Ok out') ->
  exists outs,
    out' = out ++ outs
    /\ Forall2 (fun palette out_p =>
                  Forall2 kept_or_clamped (colors_of palette) (colors_of out_p))
               inp outs.
Proof.
  revert seen out. induction inp as [| palette inp IH]; intros seen out.
  - intros [= <-]. exists []. rewrite app_nil_r. auto.
  - cbn [for_palette]. rewrite for_color_idx_colors.
    destruct (collect fuel (chunks3 palette) seen []) as [[[seen' out_p] | e] |] eqn:Hc;
      try discriminate.
    intros Hrest.
    destruct (collect_related _ _ _ _ _ _ Hc (chunks3_short palette))
      as (news & -> & Hrel).
    destruct (IH _ _ Hrest) as (outs & -> & Hshape).
    cbn [app] in *. exists (List.concat news :: outs).
    rewrite <- app_assoc. split; [reflexivity |].
    constructor; [| exact Hshape].
    rewrite !colors_of_chunks3, chunks3_concat; [exact Hrel |].
    apply (chunked_same_lengths (chunks3 palette)); [| apply chunked_chunks3].
    eapply Forall2_impl; [| exact Hrel]. now intros c n [Hlen _].
Qed.

Lemma check_step (fuel : nat) (color : list Z) (seen : list (list Z))
    (cn ca : Z) (nc : list Z) (cn' ca' : Z) :
  color_in color seen = true ->
  new_color_of color cn ca = Ok nc ->
  cn' = (cn + 1) mod 8 ->
  ca' = (if cn' =? 0 then ca + 1 else ca) ->
  _mpcu__check (S fuel) color seen cn ca = _mpcu__check fuel nc seen cn' ca'.
Proof.
  intros Hin Hnc -> ->. cbn [_mpcu__check]. now rewrite Hin, Hnc.
Qed.

Lemma check_short (fuel : nat) (color : list Z) (seen : list (list Z)) (cn ca : Z) :
  In color seen -> (List.length color < 3)%nat ->
  _mpcu__check (S fuel) color seen cn ca = Some (Raise IndexError).
Proof.
  intros Hin Hlen. cbn [_mpcu__check].
  apply color_in_In in Hin. rewrite Hin. cbn [negb].
  destruct color as [| c0 [| c1 [| c2 rest]]]; cbn in Hlen; try lia; reflexivity.
Qed.

End PaletteFacts.

(** X16. Whenever [make_palette_colors_unique] returns, each color of the
    output is the color at its place in the input, or a color whose channels
    all lie in 0 .. 255; so an input whose values all lie in 0 .. 255 gives
    an output whose values all do. An input color outside of this range is
    not brought into it as long as it is not replaced. *)
Theorem output_kept_or_clamped (fuel : nat) (inp out : list (list Z)) :
  make_palette_colors_unique fuel inp = Some (Ok out) ->
  Forall2 (fun palette out_p =>
             Forall2 kept_or_clamped (colors_of palette) (colors_of out_p))
          inp out
  /\ (Forall (Forall (fun x => 0 <= x <= 255)) inp ->
      Forall (Forall (fun x => 0 <= x <= 255)) out).
Proof.
  unfold make_palette_colors_unique. intros Hrun.
  destruct (for_palette_related _ _ _ _ _ Hrun) as (outs & -> & Hrel).
  cbn [app]. split; [exact Hrel |].
  clear Hrun. induction Hrel as [| palette out_p inp outs Hcolors _ IH];
    intros Hin; [constructor |].
  inversion Hin as [| ? ? Hp Hrest]; subst.
  constructor; [| exact (IH Hrest)].
  rewrite <- (concat_chunks3 out_p), <- colors_of_chunks3.
  apply Forall_concat.
  assert (Hsrc : Forall (Forall (fun x => 0 <= x <= 255)) (colors_of palette)).
  { apply Forall_concat. now rewrite colors_of_chunks3, concat_chunks3. }
  clear Hp. induction Hcolors as [| c n cs ns [_ Hcn] _ IHc]; [constructor |].
  inversion Hsrc as [| ? ? Hc Hcs]; subst.
  constructor; [| exact (IHc Hcs)].
  destruct Hcn as [-> | Hn]; assumption.
Qed.

Lemma output_kept_or_clamped_witness :
  Forall (Forall (fun x => 0 <= x <= 255)) [[255; 255; 255; 254; 255; 255]].
Proof.
  apply (output_kept_or_clamped 5 [[255; 255; 255; 255; 255; 255]]);
    [reflexivity |].
  repeat constructor; lia.
Defined.

(** X17. What [make_palette_colors_unique] returns it returns unchanged when
    it is given it again. *)
Theorem unique_output_is_fixed (fuel fuel' : nat) (inp out : list (list Z)) :
  make_palette_colors_unique fuel inp = Some (Ok out) ->
  (1 <= fuel')%nat ->
  make_palette_colors_unique fuel' out = Some (Ok out).
Proof.
  unfold make_palette_colors_unique. intros Hrun Hfuel.
  destruct (for_palette_result _ _ _ _ _ Hrun (NoDup_nil _))
    as (outs & -> & _ & Hnd).
  cbn [app] in *. destruct fuel' as [| fuel']; [lia |].
  now rewrite for_palette_unique by exact Hnd.
Qed.

Lemma unique_output_is_fixed_witness :
  make_palette_colors_unique 1 [[10; 10; 10; 11; 10; 10]]
  = Some (Ok [[10; 10; 10; 11; 10; 10]]).
Proof.
  apply (unique_output_is_fixed 5 1 [[10; 10; 10; 10; 10; 10]]); [reflexivity | lia].
Defined.

(** X18. A palette of one color given twice, with channels in 0 .. 255: the
    first is kept, and the second comes back with its red channel one
    higher; when red is 255 already, it comes back with red 254 and green
    one higher (green stays 255 when it is 255). Three levels of recursion
    are enough. *)
Theorem one_color_twice (fuel : nat) (r g b : Z) :
  (3 <= fuel)%nat ->
  0 <= r <= 255 -> 0 <= g <= 255 -> 0 <= b <= 255 ->
  make_palette_colors_unique fuel [[r; g; b; r; g; b]]
  = Some (Ok [[r; g; b]
              ++ (if r <? 255 then [r + 1; g; b] else [254; Z.min (g + 1) 255; b])]).
Proof.
  intros Hfuel Hr Hg Hb.
  do 3 (destruct fuel as [| fuel]; [lia |]).
  unfold make_palette_colors_unique. cbn [for_palette].
  rewrite for_color_idx_colors. cbn [chunks3 collect].
  rewrite check_fresh by (intros []). cbn [app].
  assert (Hseen : color_in [r; g; b] [[r; g; b]] = true)
    by (apply color_in_In; now left).
  assert (Hfirst : new_color_of [r; g; b] 0 1 = Ok [clamp (r + 1); clamp g; clamp b])
    by reflexivity.
  rewrite (clamp_id g), (clamp_id b) in Hfirst by lia.
  rewrite (check_step _ _ _ _ _ _ 1 1 Hseen Hfirst eq_refl eq_refl).
  destruct (Z.ltb_spec r 255) as [Hlt | Hge].
  - rewrite (clamp_id (r + 1)) by lia.
    rewrite check_fresh; [reflexivity |].
    intros [[= H] | []]. lia.
  - assert (r = 255) by lia. subst r.
    change (clamp (255 + 1)) with 255.
    assert (Hsecond : new_color_of [255; g; b] 1 1
                      = Ok [clamp (255 - 1); clamp (g + 1); clamp b])
      by reflexivity.
    change (clamp (255 - 1)) with 254 in Hsecond.
    rewrite (clamp_id b) in Hsecond by lia.
    replace (clamp (g + 1)) with (Z.min (g + 1) 255) in Hsecond.
    + rewrite (check_step _ _ _ _ _ _ 2 1 Hseen Hsecond eq_refl eq_refl).
      rewrite check_fresh; [reflexivity |].
      intros [[= H] | []].
    + unfold clamp. destruct (Z.ltb_spec (g + 1) 0); [lia |].
      destruct (Z.gtb_spec (g + 1) 255); lia.
Qed.

Lemma one_color_twice_witness :
  make_palette_colors_unique 3 [[255; 255; 0; 255; 255; 0]]
  = Some (Ok [[255; 255; 0; 254; 255; 0]]).
Proof. apply (one_color_twice 3 255 255 0); lia. Defined.

(** X19. A color of one or two channels, the rest of a palette whose length
    is no multiple of 3, is kept as long as it is new; the second time it is
    met, [_mpcu__check] raises [IndexError], and so does
    [make_palette_colors_unique] on two palettes that each are this short
    color. *)
Theorem short_color_twice (fuel : nat) (short : list Z) :
  (1 <= fuel)%nat -> (1 <= List.length short < 3)%nat ->
  (forall seen cn ca,
      In short seen ->
      _mpcu__check fuel short seen cn ca = Some (Raise IndexError))
  /\ make_palette_colors_unique fuel [short] = Some (Ok [short])
  /\ make_palette_colors_unique fuel [short; short] = Some (Raise IndexError).
Proof.
  intros Hfuel Hlen. destruct fuel as [| fuel]; [lia |].
  assert (Hchunk : chunks3 short = [short]).
  { destruct short as [| x [| y [| z rest]]]; cbn in Hlen; try lia; reflexivity. }
  split; [| split].
  - intros seen cn ca Hin. apply check_short; [exact Hin | lia].
  - unfold make_palette_colors_unique. cbn [for_palette].
    rewrite for_color_idx_colors, Hchunk. cbn [collect].
    rewrite check_fresh by (intros []). reflexivity.
  - unfold make_palette_colors_unique. cbn [for_palette].
    rewrite for_color_idx_colors, Hchunk. cbn [collect].
    rewrite check_fresh by (intros []). cbn [app for_palette].
    rewrite for_color_idx_colors, Hchunk. cbn [collect].
    rewrite check_short; [reflexivity | now left | lia].
Qed.

Lemma short_color_twice_witness :
  make_palette_colors_unique 1 [[4; 5]; [4; 5]] = Some (Raise IndexError).
Proof. apply (short_color_twice 1 [4; 5]); cbn; lia. Defined.

(** ** More on reads and writes *)

(** X20. An in-bounds [read_bytes] returns exactly [length] bytes, those at
    the indices [start .. start + length - 1] of the buffer; and two reads of
    ranges that meet, in bounds or not, give together the read of the whole
    range. *)
Theorem read_bytes_in_bounds (data : buffer) (start length : Z) :
  0 <= start -> 0 <= length ->
  (start + length <= buffer_len data ->
   exists bs,
     read_bytes data start length = Ok bs
     /\ Z.of_nat (List.length bs) = length
     /\ forall i, (i < List.length bs)%nat ->
                  nth_error bs i = nth_error (contents data) (Z.to_nat start + i))
  /\ (forall more bs1 bs2,
         0 <= more ->
         read_bytes data start length = Ok bs1 ->
         read_bytes data (start + length) more = Ok bs2 ->
         read_bytes data start (length + more) = Ok (bs1 ++ bs2)).
Proof.
  intros Hstart Hlen. unfold read_bytes, buffer_slice, buffer_len. split.
  - intros Hend. eexists. split; [reflexivity |].
    assert (Hl : Z.of_nat (List.length (Py.getslice (contents data) start (start + length)))
                 = length)
      by (rewrite length_getslice_le by lia; lia).
    split; [exact Hl |].
    intros i Hi. rewrite nth_error_getslice by lia.
    destruct (Nat.ltb_spec i (Z.to_nat (start + length - start))); [reflexivity | lia].
  - intros more bs1 bs2 Hmore [= <-] [= <-]. f_equal.
    rewrite getslice_app by lia. f_equal. lia.
Qed.

Lemma read_bytes_in_bounds_witness :
  exists bs,
    read_bytes (mkBuffer Bytearray [x0a; x0b; x0c; x0d]) 1 2 = Ok bs
    /\ Z.of_nat (List.length bs) = 2
    /\ forall i, (i < List.length bs)%nat ->
                 nth_error bs i = nth_error [x0a; x0b; x0c; x0d] (Z.to_nat 1 + i).
Proof.
  apply (read_bytes_in_bounds (mkBuffer Bytearray [x0a; x0b; x0c; x0d]) 1 2);
    [lia | lia | cbn; lia].
Defined.

(** X21. The signed and the unsigned read of one in-bounds range of
    [length >= 1] bytes, in one byte order, agree modulo [256^length]: the
    signed result is the unsigned one when that is below [2^(8 length - 1)],
    and the unsigned one less [256^length] otherwise. *)
Theorem signed_read_is_twos_complement (o : Py.byteorder) (data : buffer)
    (start length : Z) :
  0 <= start -> 1 <= length -> start + length <= buffer_len data ->
  exists u s,
    read_int o false data start length = Ok u
    /\ read_int o true data start length = Ok s
    /\ s mod 256 ^ length = u
    /\ s = (if u <? 2 ^ (8 * length - 1) then u else u - 256 ^ length).
Proof.
  intros Hstart Hlen Hend. rewrite !read_int_eq. do 2 eexists.
  split; [reflexivity |]. split; [reflexivity |].
  unfold buffer_len in Hend.
  assert (Hl : Z.of_nat (List.length (buffer_slice data start (start + length))) = length).
  { unfold buffer_slice. rewrite length_getslice_le by lia. lia. }
  unfold Py.int_from_bytes. rewrite Hl. cbn [andb].
  pose proof (le_value_range (Py.in_order o (buffer_slice data start (start + length))))
    as Hu.
  rewrite length_in_order, Hl in Hu.
  set (u := Py.le_value _) in *.
  destruct (Z.ltb_spec 0 (8 * length)); [| lia]. cbn [andb].
  rewrite <- pow256 by lia.
  destruct (Z.leb_spec (2 ^ (8 * length - 1)) u);
    destruct (Z.ltb_spec u (2 ^ (8 * length - 1))); try lia.
  - split; [| reflexivity].
    replace (u - 256 ^ length) with (u + (-1) * 256 ^ length) by ring.
    rewrite Z.mod_add by lia. now apply Z.mod_small.
  - split; [now apply Z.mod_small | reflexivity].
Qed.

Lemma signed_read_is_twos_complement_witness :
  exists u s,
    read_uintbe (mkBuffer Bytearray [xff; xfe]) 0 2 = Ok u
    /\ read_sintbe (mkBuffer Bytearray [xff; xfe]) 0 2 = Ok s
    /\ s mod 256 ^ 2 = u
    /\ s = (if u <? 2 ^ (8 * 2 - 1) then u else u - 256 ^ 2).
Proof.
  apply (signed_read_is_twos_complement Py.big (mkBuffer Bytearray [xff; xfe]) 0 2);
    [lia | lia | cbn; lia].
Defined.

(** X22. After an in-bounds write of a representable value [v], signed or
    not, the unsigned read of the range in the same byte order returns
    [v mod 256^length]: a negative value is stored as its two's
    complement. *)
Theorem unsigned_read_of_written (o : Py.byteorder) (signed : bool) (data data' : buffer)
    (v start length : Z) :
  0 <= start -> 1 <= length -> start + length <= buffer_len data ->
  write_named o signed data v start length = (Ok tt, data') ->
  read_int o false data' start length = Ok (v mod 256 ^ length).
Proof.
  intros Hstart Hlen Hend Hwrite. rewrite write_named_eq in Hwrite.
  destruct (Py.int_to_bytes v length o signed) as [bs | e] eqn:Hbs.
  - pose proof Hbs as Hbs'. unfold Py.int_to_bytes in Hbs'.
    destruct (Z.ltb_spec length 0); [discriminate |].
    destruct (Py.fits v length signed); [| discriminate].
    injection Hbs' as Hbs'.
    destruct (from_bytes_to_bytes _ _ _ _ _ Hbs) as [Hbl _].
    rewrite (write_int_in_bounds _ _ _ _ _ _ _ Hstart Hend Hbs) in Hwrite.
    injection Hwrite as <-. rewrite read_int_eq. unfold buffer_slice. cbn [contents].
    replace (start + length) with (start + Z.of_nat (List.length bs)) by lia.
    unfold buffer_len in Hend. rewrite getslice_setslice by lia.
    unfold Py.int_from_bytes. cbn [andb]. rewrite <- Hbs'.
    rewrite in_order_involutive, le_value_le_bytes. f_equal. f_equal. f_equal. lia.
  - unfold write_int in Hwrite. rewrite Hbs in Hwrite. discriminate.
Qed.

Lemma unsigned_read_of_written_witness :
  read_uintle (mkBuffer Bytearray [xfe; xff; x00]) 0 2 = Ok ((-2) mod 256 ^ 2).
Proof.
  apply (unsigned_read_of_written Py.little true (mkBuffer Bytearray [x00; x00; x00])
           (mkBuffer Bytearray [xfe; xff; x00]) (-2) 0 2);
    [lia | lia | cbn; lia | reflexivity].
Defined.

(** X23. For a single byte the byte order plays no part: with [length = 1]
    the little-endian and the big-endian read return the same, and so do
    the two writes, for every buffer, value and start. *)
Theorem one_byte_has_no_order (signed : bool) (data : buffer) (start v : Z) :
  read_int Py.little signed data start 1 = read_int Py.big signed data start 1
  /\ write_named Py.little signed data v start 1
     = write_named Py.big signed data v start 1.
Proof.
  split.
  - rewrite !read_int_eq. f_equal. unfold Py.int_from_bytes, buffer_slice.
    pose proof (length_getslice_bound (contents data) start (start + 1) ltac:(lia)) as Hl.
    destruct (Py.getslice (contents data) start (start + 1)) as [| b [| b' rest]];
      [reflexivity | reflexivity | cbn [List.length] in Hl; lia].
  - rewrite !write_named_eq. unfold write_int, Py.int_to_bytes.
    destruct (1 <? 0); [reflexivity |].
    destruct (Py.fits v 1 signed); reflexivity.
Qed.

Section Answers.

Lemma answers_nil (seen : list (list Z)) : answers seen [] [].
Proof.
  split; [reflexivity |]. intros i c n Hc. destruct i; discriminate.
Qed.

Lemma answers_cons (seen : list (list Z)) (c n : list Z) (colors news : list (list Z)) :
  ~ In n seen -> (~ In c seen -> n = c) ->
  answers (seen ++ [n]) colors news ->
  answers seen (c :: colors) (n :: news).
Proof.
  intros Hn Hc [Hlen Hrest]. split; [cbn; now rewrite Hlen |].
  intros [| i] c' n' Hc' Hn'.
  - cbn in Hc', Hn'. injection Hc' as <-. injection Hn' as <-.
    cbn [firstn]. rewrite app_nil_r. auto.
  - cbn [nth_error] in Hc', Hn'. cbn [firstn].
    change (n :: firstn i news) with ([n] ++ firstn i news). rewrite app_assoc.
    exact (Hrest i c' n' Hc' Hn').
Qed.

Lemma answers_app (seen colors1 news1 colors2 news2 : list (list Z)) :
  answers seen colors1 news1 ->
  answers (seen ++ news1) colors2 news2 ->
  answers seen (colors1 ++ colors2) (news1 ++ news2).
Proof.
  intros [Hlen1 H1] [Hlen2 H2]. split; [rewrite !length_app; lia |].
  intros i c n Hc Hn.
  destruct (Nat.lt_ge_cases i (List.length colors1)) as [Hlt | Hge].
  - rewrite nth_error_app1 in Hc by lia. rewrite nth_error_app1 in Hn by lia.
    rewrite firstn_app. replace (i - List.length news1)%nat with 0%nat by lia.
    cbn [firstn]. rewrite app_nil_r. exact (H1 i c n Hc Hn).
  - rewrite nth_error_app2 in Hc by lia. rewrite nth_error_app2 in Hn by lia.
    rewrite firstn_app, firstn_all2 by lia. rewrite app_assoc.
    rewrite Hlen1. rewrite Hlen1 in Hn. exact (H2 _ c n Hc Hn).
Qed.

Lemma check_answers (fuel : nat) (c : list Z) (seen : list (list Z)) (n : list Z) :
  _mpcu__check fuel c seen 0 1 = Some (Ok n) ->
  ~ In n seen /\ (~ In c seen -> n = c).
Proof.
  intros Hcheck. split; [exact (proj1 (check_result _ _ _ _ _ _ Hcheck)) |].
  intros Hc. destruct fuel as [| fuel]; [discriminate |].
  rewrite check_fresh in Hcheck by exact Hc. now injection Hcheck as <-.
Qed.

Lemma collect_answers (fuel : nat) (colors : list (list Z)) (seen : list (list Z))
    (out_p : list Z) (seen' : list (list Z)) (out_p' : list Z) :
  collect fuel colors seen out_p = Some (Ok (seen', out_p')) ->
  Forall (fun c => (List.length c <= 3)%nat) colors ->
  exists news,
    seen' = seen ++ news
    /\ out_p' = out_p ++ List.concat news
    /\ Forall2 (fun c n => List.length c = List.length n) colors news
    /\ answers seen colors news.
Proof.
  revert seen out_p. induction colors as [| c colors IH]; intros seen out_p.
  - intros [= <- <-] _. exists []. cbn. rewrite !app_nil_r.
    auto using answers_nil.
  - cbn [collect].
    destruct (_mpcu__check fuel c seen 0 1) as [[nc | e] |] eqn:Hcheck;
      try discriminate.
    intros Hrest Hshort. inversion Hshort as [| ? ? Hc Hshort']; subst.
    destruct (IH _ _ Hrest Hshort') as (news & -> & -> & Hlens & Hans).
    exists (nc :: news). rewrite <- !app_assoc. cbn [app List.concat].
    split; [reflexivity |]. split; [reflexivity |]. split.
    + constructor; [| exact Hlens].
      apply check_result in Hcheck. destruct Hcheck as [_ [-> | [H3 Hc3]]]; lia.
    + destruct (check_answers _ _ _ _ Hcheck) as [Hn Hkeep].
      now apply answers_cons.
Qed.

Lemma for_palette_answers (fuel : nat) (inp : list (list Z)) (seen : list (list Z))
    (out out' : list (list Z)) :
  for_palette fuel inp seen out = Some (Ok out') ->
  exists outs,
    out' = out ++ outs /\ answers seen (all_colors inp) (all_colors outs).
Proof.
  revert seen out. induction inp as [| palette inp IH]; intros seen out.
  - intros [= <-]. exists []. rewrite app_nil_r. split; [reflexivity |].
    apply answers_nil.
  - cbn [for_palette]. rewrite for_color_idx_colors.
    destruct (collect fuel (chunks3 palette) seen []) as [[[seen' out_p] | e] |] eqn:Hc;
      try discriminate.
    intros Hrest.
    destruct (collect_answers _ _ _ _ _ _ Hc (chunks3_short palette))
      as (news & -> & -> & Hlens & Hans).
    destruct (IH _ _ Hrest) as (outs & -> & Hans').
    cbn [app] in *. exists (List.concat news :: outs).
    rewrite <- app_assoc. split; [reflexivity |].
    unfold all_colors in *. cbn [map List.concat].
    rewrite !colors_of_chunks3, chunks3_concat.
    + now apply answers_app.
    + apply (chunked_same_lengths _ _ Hlens), chunked_chunks3.
Qed.

End Answers.

(** X24. Whenever [make_palette_colors_unique] returns, a color of the
    output, counted through all palettes, is the color at its place in the
    input exactly when that input color is not among the colors of the
    output before this place: a color is changed when it is taken already,
    and only then. *)
Theorem colors_kept_unless_taken (fuel : nat) (inp out : list (list Z))
    (i : nat) (c n : list Z) :
  make_palette_colors_unique fuel inp = Some (Ok out) ->
  nth_error (all_colors inp) i = Some c ->
  nth_error (all_colors out) i = Some n ->
  n = c <-> ~ In c (firstn i (all_colors out)).
Proof.
  unfold make_palette_colors_unique. intros Hrun Hc Hn.
  destruct (for_palette_answers _ _ _ _ _ Hrun) as (outs & -> & [_ Hans]).
  cbn [app] in *. destruct (Hans i c n Hc Hn) as [Hfresh Hkeep].
  split.
  - intros <-. exact Hfresh.
  - exact Hkeep.
Qed.

Lemma colors_kept_unless_taken_witness :
  [11; 10; 10] = [10; 10; 10]
  <-> ~ In [10; 10; 10] (firstn 1 (all_colors [[10; 10; 10; 11; 10; 10]; [7; 8; 9]])).
Proof.
  apply (colors_kept_unless_taken 5 [[10; 10; 10; 10; 10; 10]; [7; 8; 9]]
           [[10; 10; 10; 11; 10; 10]; [7; 8; 9]] 1); reflexivity.
Defined.
